(** * Trotterised time evolution circuits (zquantum.core.evolution)

    A shallow embedding of [src/python/zquantum/core/evolution.py]:
    [time_evolution], [time_evolution_for_term],
    [time_evolution_derivatives] and [_generate_circuit_sequence], with the
    properties its specification states about them.

    Python numbers (floats, complex numbers, sympy expressions) are kept
    abstract: the development is parametric in a type of scalars with the
    arithmetic operations the module uses, so every theorem holds for
    whatever arithmetic the interpreter performs.  A concrete model of
    scalars ([pynum]) is given at the end to run the functions. *)

From Stdlib Require Import ZArith String Ascii Bool Lia QArith DecimalString List.
Import ListNotations.

Local Open Scope string_scope.
Local Open Scope list_scope.
Local Open Scope nat_scope.

(** ** Exceptions and results *)

(** The exceptions that the module can surface. *)
Inductive exn : Type :=
| ValueError (msg : string)
| TypeError
| ZeroDivisionError
| IndexError.

Inductive result (A : Type) : Type :=
| Ok (a : A)
| Raise (e : exn).

Arguments Ok {A} a.
Arguments Raise {A} e.

Definition bind {A B : Type} (m : result A) (k : A -> result B) : result B :=
  match m with
  | Ok a => k a
  | Raise e => Raise e
  end.

Notation "x <- m ;; k" := (bind m (fun x => k))
  (at level 61, m at next level, right associativity).
Notation "' pat <- m ;; k" := (bind m (fun x => match x with pat => k end))
  (at level 61, pat pattern, m at next level, right associativity).

(** [for x in xs: st = body(x, st)], stopping at the first exception. *)
Fixpoint for_each {A St : Type} (xs : list A) (body : A -> St -> result St)
  (st : St) : result St :=
  match xs with
  | [] => Ok st
  | x :: xs' => st' <- body x st ;; for_each xs' body st'
  end.

(** A generator expression consumed element by element: the values in
    order, or the first exception. *)
Fixpoint generate {A B : Type} (f : A -> result B) (xs : list A)
  : result (list B) :=
  match xs with
  | [] => Ok []
  | x :: xs' => y <- f x ;; ys <- generate f xs' ;; Ok (y :: ys)
  end.

(** [enumerate(xs)]. *)
Definition enumerate {A : Type} (xs : list A) : list (nat * A) :=
  combine (seq 0 (length xs)) xs.

(** [range(n)] for a Python integer [n] (empty when [n <= 0]). *)
Definition range (n : Z) : list Z :=
  map Z.of_nat (seq 0 (Z.to_nat n)).

(** [xs[i]] for a non-negative index. *)
Definition index {A : Type} (xs : list A) (i : nat) : result A :=
  match nth_error xs i with
  | Some x => Ok x
  | None => Raise IndexError
  end.

(** [str(n)] for a Python integer. *)
Definition str_int (n : Z) : string := NilZero.string_of_int (Z.to_int n).

(** ** Scalars *)

(** The numbers of the module: evolution times, term coefficients and
    gate angles.  [sdiv] is [None] where Python's [/] raises
    (division by zero); [complex_real x] is [complex(x).real], [None]
    where [complex(x)] raises [TypeError] (an expression with free
    symbols). *)
Class Scalar (S : Type) : Type := {
  of_int : Z -> S;              (* an [int] used as a number *)
  of_float : Z -> S;            (* the float literals 1.0, -1.0, 4.0 *)
  pi : S;                       (* np.pi *)
  pi_over_2 : S;                (* np.pi / 2 *)
  neg_pi_over_2 : S;            (* -np.pi / 2 *)
  sadd : S -> S -> S;
  smul : S -> S -> S;
  sneg : S -> S;
  sdiv : S -> S -> option S;
  complex_real : S -> option S
}.

Definition divide {S : Type} {scalar : Scalar S} (x y : S) : result S :=
  match sdiv x y with
  | Some q => Ok q
  | None => Raise ZeroDivisionError
  end.

(** ** A concrete model of scalars

    Numbers are exact rationals (floats idealised, without rounding) and
    sympy expressions are syntax trees over symbols.  Arithmetic on two
    numbers computes; arithmetic involving an expression builds a tree, as
    sympy does.  Dividing by the number zero raises. *)
Inductive pynum : Type :=
| Num (q : Q)
| Symbol (name : string)
| SymAdd (a b : pynum)
| SymMul (a b : pynum)
| SymDiv (a b : pynum)
| SymNeg (a : pynum).

Definition pynum_add (a b : pynum) : pynum :=
  match a, b with
  | Num p, Num q => Num (Qred (p + q))
  | _, _ => SymAdd a b
  end.

Definition pynum_mul (a b : pynum) : pynum :=
  match a, b with
  | Num p, Num q => Num (Qred (p * q))
  | _, _ => SymMul a b
  end.

Definition pynum_neg (a : pynum) : pynum :=
  match a with
  | Num p => Num (Qred (- p))
  | _ => SymNeg a
  end.

Definition pynum_div (a b : pynum) : option pynum :=
  match a, b with
  | Num p, Num q => if Qeq_bool q 0 then None else Some (Num (Qred (p / q)))
  | _, _ => Some (SymDiv a b)
  end.

(** [complex(x).real]: defined on numbers, [TypeError] on expressions. *)
Definition pynum_complex_real (a : pynum) : option pynum :=
  match a with
  | Num p => Some (Num p)
  | _ => None
  end.

(** The double nearest to pi, [0x1.921fb54442d18p+1]. *)
Definition float_pi : Q := 884279719003555 # 281474976710656.

#[export] Instance pynum_scalar : Scalar pynum := {
  of_int := fun n => Num (inject_Z n);
  of_float := fun n => Num (inject_Z n);
  pi := Num float_pi;
  pi_over_2 := Num (Qred (float_pi / 2));
  neg_pi_over_2 := Num (Qred (- float_pi / 2));
  sadd := pynum_add;
  smul := pynum_mul;
  sneg := pynum_neg;
  sdiv := pynum_div;
  complex_real := pynum_complex_real
}.

(** ** Operators and circuits *)

Inductive axis : Type := AxisX | AxisY | AxisZ.

(** A key of [QubitOperator.terms]: a tuple of (qubit index, axis). *)
Definition pauli_key : Type := list (nat * axis).

Section Evolution.

Context {S : Type} {scalar : Scalar S}.

(** [openfermion.QubitOperator]: the [terms] dictionary, in iteration
    order. *)
Record QubitOperator : Type := mkQubitOperator {
  terms : list (pauli_key * S)
}.

(** [QubitOperator(term, coefficient)] for one Pauli string. *)
Definition single_term (key : pauli_key) (coefficient : S) : QubitOperator :=
  mkQubitOperator [(key, coefficient)].

(** [hamiltonian.get_operators()]: one single-term operator per entry. *)
Definition get_operators (hamiltonian : QubitOperator) : list QubitOperator :=
  map (fun entry => single_term (fst entry) (snd entry)) (terms hamiltonian).

(** Modelled from the spec: the gate constructors [H], [RX], [RZ] and
    [CNOT] of [zquantum.core.circuits] are not among the sources; an
    operation is a gate bound to its qubit indices, the rotations carrying
    their angle. *)
Inductive Operation : Type :=
| H (qubit : nat)
| RX (theta : S) (qubit : nat)
| RZ (theta : S) (qubit : nat)
| CNOT (control target : nat).

(** Modelled from the spec: the class [circuits.Circuit] is not among the
    sources; a circuit is an ordered sequence of operations, [+] is
    concatenation and [Circuit()] is the empty circuit. *)
Definition Circuit : Type := list Operation.

(** ** time_evolution_for_term *)

(** The local lists the loop of [time_evolution_for_term] fills. *)
Record term_loop_state : Type := mkTermLoop {
  base_changes : list Operation;
  base_reversals : list Operation;
  cnot_gates : list Operation;
  central_gate : option Operation
}.

(** One iteration of the loop over
    [enumerate(zip(term_types, qubit_indices))]. *)
Definition term_loop_body (time coefficient : S) (n_components : nat)
  (qubit_indices : list nat) (it : nat * (axis * nat)) (st : term_loop_state)
  : result term_loop_state :=
  let '(i, (term_type, qubit_id)) := it in
  let st1 :=
    match term_type with
    | AxisX =>
        mkTermLoop (base_changes st ++ [H qubit_id])
                   (base_reversals st ++ [H qubit_id])
                   (cnot_gates st) (central_gate st)
    | AxisY =>
        mkTermLoop (base_changes st ++ [RX pi_over_2 qubit_id])
                   (base_reversals st ++ [RX neg_pi_over_2 qubit_id])
                   (cnot_gates st) (central_gate st)
    | AxisZ => st
    end in
  if (Z.of_nat i =? Z.of_nat n_components - 1)%Z then
    Ok (mkTermLoop (base_changes st1) (base_reversals st1) (cnot_gates st1)
          (Some (RZ (smul (smul (of_int 2) time) coefficient) qubit_id)))
  else
    next <- index qubit_indices (i + 1) ;;
    Ok (mkTermLoop (base_changes st1) (base_reversals st1)
          (cnot_gates st1 ++ [CNOT qubit_id next]) (central_gate st1)).

Definition time_evolution_for_term (term : QubitOperator) (time : S)
  : result Circuit :=
  if negb (length (terms term) =? 1) then
    Raise (ValueError "This function works only on a single term.")
  else
    term_components <- index (map fst (terms term)) 0 ;;
    let term_types := map snd term_components in
    let qubit_indices := map fst term_components in
    coefficient <- index (map snd (terms term)) 0 ;;
    let circuit : Circuit := [] in
    match term_components with
    | [] => Ok circuit
    | _ :: _ =>
        st <- for_each (enumerate (combine term_types qubit_indices))
                (term_loop_body time coefficient (length term_components)
                   qubit_indices)
                (mkTermLoop [] [] [] None) ;;
        let circuit := circuit ++ base_changes st in
        let circuit := circuit ++ cnot_gates st in
        match central_gate st with
        | None => Raise TypeError
        | Some gate =>
            let circuit := circuit ++ [gate] in
            let circuit := circuit ++ rev (cnot_gates st) in
            let circuit := circuit ++ base_reversals st in
            Ok circuit
        end
    end.

(** ** time_evolution *)

(** [reduce(operator.add, circuits)] without an initial value: a left fold
    of [+] from the first circuit; Python raises [TypeError] on an empty
    iterable. *)
Definition reduce_add (circuits : list Circuit) : result Circuit :=
  match circuits with
  | [] => Raise TypeError
  | first :: rest => Ok (fold_left (fun acc c => acc ++ c) rest first)
  end.

Definition time_evolution (hamiltonian : QubitOperator) (time : S)
  (method : string) (trotter_order : Z) : result Circuit :=
  if negb (method =? "Trotter")%string then
    Raise (ValueError
             ("Currently the method " ++ method ++ " is not supported.")%string)
  else
    let term_ops := get_operators hamiltonian in
    circuits <-
      generate
        (fun term =>
           angle <- divide time (of_int trotter_order) ;;
           time_evolution_for_term term angle)
        (flat_map (fun _index_order => term_ops) (range trotter_order)) ;;
    reduce_add circuits.

(** ** _generate_circuit_sequence *)

Definition _generate_circuit_sequence
  (repeated_circuit different_circuit : Circuit) (length position : Z)
  : result Circuit :=
  if (position >=? length)%Z then
    Raise (ValueError
             ("Position " ++ str_int position ++ " should be < "
                ++ str_int length)%string)
  else
    Ok (concat
          (map (fun i =>
                  if negb (i =? position)%Z then repeated_circuit
                  else different_circuit)
               (range length))).

(** ** time_evolution_derivatives *)

(** What the [isinstance(term_1, QubitOperator)] test of
    [time_evolution_derivatives] distinguishes: a [QubitOperator], or any
    other term object, read through its [coefficient] attribute. *)
Inductive term_object : Type :=
| QubitTerm (op : QubitOperator)
| OtherTerm (coefficient : S).

(** [str(term_1)], used in the error message only. *)
Variable str_term : term_object -> string.

(** The [try]/[except TypeError] block computing [r]. *)
Definition per_repetition_coefficient (term_1 : term_object)
  (trotter_order : Z) : result S :=
  let attempt :=
    match term_1 with
    | QubitTerm op =>
        c <- index (map snd (terms op)) 0 ;;
        divide c (of_int trotter_order)
    | OtherTerm coefficient =>
        match complex_real coefficient with
        | Some re => divide re (of_int trotter_order)
        | None => Raise TypeError
        end
    end in
  match attempt with
  | Raise TypeError =>
      Raise (ValueError
               ("Term coefficients need to be numerical. Offending term: "
                  ++ str_term term_1)%string)
  | outcome => outcome
  end.

(** [factors = [1.0, -1.0]]. *)
Definition factors : list S := [of_float 1; of_float (-1)].

(** The body of the two outer loops, for term [i] and one [factor]; the
    state is [(single_trotter_derivatives, output_factors)].  The terms come
    from [get_operators] of a [QubitOperator], which yields instances of the
    Hamiltonian's own class, so [isinstance(term_1, QubitOperator)] holds. *)
Definition derivative_loop_body (term_ops : list QubitOperator) (time : S)
  (trotter_order : Z) (i : nat) (term_1 : QubitOperator) (factor : S)
  (st : list Circuit * list S) : result (list Circuit * list S) :=
  let '(single_trotter_derivatives, output_factors) := st in
  let output : Circuit := [] in
  r <- per_repetition_coefficient (QubitTerm term_1) trotter_order ;;
  let output_factors := output_factors ++ [smul r factor] in
  q <- divide pi (smul (of_float 4) r) ;;
  let shift := smul factor q in
  output <-
    for_each (enumerate term_ops)
      (fun '(j, term_2) output =>
         angle <- (if i =? j
                   then divide (sadd time shift) (of_int trotter_order)
                   else divide time (of_int trotter_order)) ;;
         circuit <- time_evolution_for_term term_2 angle ;;
         Ok (output ++ circuit))
      output ;;
  Ok (single_trotter_derivatives ++ [output], output_factors).

(** The loops of lines 132-155: over the terms, then over the factors. *)
Definition single_trotter_loop (term_ops : list QubitOperator) (time : S)
  (trotter_order : Z) : result (list Circuit * list S) :=
  for_each (enumerate term_ops)
    (fun '(i, term_1) st =>
       for_each factors
         (fun factor st =>
            derivative_loop_body term_ops time trotter_order i term_1 factor st)
         st)
    ([], []).

Definition time_evolution_derivatives (hamiltonian : QubitOperator) (time : S)
  (method : string) (trotter_order : Z)
  : result (list Circuit * list S) :=
  if negb (method =? "Trotter")%string then
    Raise (ValueError
             ("The method " ++ method ++ " is currently not supported.")%string)
  else
    let term_ops := get_operators hamiltonian in
    '(single_trotter_derivatives, output_factors) <-
      single_trotter_loop term_ops time trotter_order ;;
    if (trotter_order >? 1)%Z then
      repeated_circuit <- time_evolution hamiltonian time "Trotter" 1%Z ;;
      for_each (range trotter_order)
        (fun position st =>
           for_each (combine output_factors single_trotter_derivatives)
             (fun '(factor, different_circuit) '(output_circuits, final_factors) =>
                circuit <- _generate_circuit_sequence repeated_circuit
                             different_circuit trotter_order position ;;
                Ok (output_circuits ++ [circuit], final_factors ++ [factor]))
             st)
        ([], [])
    else
      Ok (single_trotter_derivatives, output_factors).

(** ** The circuits as the specification describes them *)

(** Basis change before the rotation: H for X, RX(+pi/2) for Y, nothing
    for Z. *)
Definition basis_change (component : nat * axis) : list Operation :=
  match snd component with
  | AxisX => [H (fst component)]
  | AxisY => [RX pi_over_2 (fst component)]
  | AxisZ => []
  end.

(** Basis reversal after the rotation: H for X, RX(-pi/2) for Y. *)
Definition basis_reversal (component : nat * axis) : list Operation :=
  match snd component with
  | AxisX => [H (fst component)]
  | AxisY => [RX neg_pi_over_2 (fst component)]
  | AxisZ => []
  end.

(** The qubit at position [i] of a term. *)
Definition qubit_at (key : pauli_key) (i : nat) : nat :=
  nth i (map fst key) 0.

(** CNOT(qubit at position i, qubit at position i+1) for i = 0..k-2. *)
Definition cnot_staircase (key : pauli_key) : list Operation :=
  map (fun i => CNOT (qubit_at key i) (qubit_at key (i + 1)))
      (seq 0 (length key - 1)).

(** The last qubit in the term's order. *)
Definition last_qubit (key : pauli_key) : nat :=
  last (map fst key) 0.

(** RZ(2 * time * coefficient) on the last qubit. *)
Definition central_rotation (key : pauli_key) (coefficient time : S)
  : Operation :=
  RZ (smul (smul (of_int 2) time) coefficient) (last_qubit key).

(** The emission order of the specification for a term with at least one
    factor. *)
Definition emission_order (key : pauli_key) (coefficient time : S) : Circuit :=
  flat_map basis_change key
    ++ cnot_staircase key
    ++ [central_rotation key coefficient time]
    ++ rev (cnot_staircase key)
    ++ flat_map basis_reversal key.

(** The circuit of one Pauli term: empty for the identity term. *)
Definition term_circuit (key : pauli_key) (coefficient time : S) : Circuit :=
  match key with
  | [] => []
  | _ :: _ => emission_order key coefficient time
  end.

(** One Trotter repetition: the per-term circuits at one angle, in the
    Hamiltonian's iteration order. *)
Definition one_step_circuit (hamiltonian : QubitOperator) (angle : S)
  : Circuit :=
  flat_map (fun entry => term_circuit (fst entry) (snd entry) angle)
           (terms hamiltonian).

(** Instance [i] of the splice: the different circuit in slot [position],
    the repeated circuit elsewhere. *)
Definition splice_instance (repeated_circuit different_circuit : Circuit)
  (position i : Z) : Circuit :=
  if Z.eq_dec i position then different_circuit else repeated_circuit.

(** The perturbed one-step circuit for term [i]: every term once, term [i]
    at [shifted_angle] and every other term at [angle]. *)
Definition perturbed_step (hamiltonian : QubitOperator) (i : nat)
  (shifted_angle angle : S) : Circuit :=
  flat_map
    (fun indexed =>
       term_circuit (fst (snd indexed)) (snd (snd indexed))
         (if fst indexed =? i then shifted_angle else angle))
    (enumerate (terms hamiltonian)).

(** The shift [s * pi / (4 * r_i)] for the per-repetition coefficient
    [r_i]; undefined where the division raises. *)
Definition parameter_shift (sign r_i : S) : option S :=
  option_map (smul sign) (sdiv pi (smul (of_float 4) r_i)).

(** The angle [(time + shift) / trotter_order] of the perturbed term. *)
Definition shifted_angle (time : S) (trotter_order : Z) (sign r_i : S)
  : option S :=
  match parameter_shift sign r_i with
  | Some shift => sdiv (sadd time shift) (of_int trotter_order)
  | None => None
  end.

(** The two perturbed angles of a term with coefficient [c], for the signs
    +1 and -1, together with [r_i = c / trotter_order]; [None] if one of the
    divisions raises. *)
Definition shift_angles (time : S) (trotter_order : Z) (coefficient : S)
  : option (S * S * S) :=
  match sdiv coefficient (of_int trotter_order) with
  | Some r_i =>
      match shifted_angle time trotter_order (of_float 1) r_i,
            shifted_angle time trotter_order (of_float (-1)) r_i with
      | Some plus, Some minus => Some (r_i, plus, minus)
      | _, _ => None
      end
  | None => None
  end.

(** The factors recorded for a term: [r_i * (+1)], then [r_i * (-1)]. *)
Definition term_factors (trotter_order : Z) (coefficient : S) : list S :=
  match sdiv coefficient (of_int trotter_order) with
  | Some r_i => [smul r_i (of_float 1); smul r_i (of_float (-1))]
  | None => []
  end.

(** The two perturbed one-step circuits of term [i], sign +1 first. *)
Definition term_derivative_circuits (hamiltonian : QubitOperator) (time : S)
  (trotter_order : Z) (angle : S) (i : nat) (coefficient : S)
  : list Circuit :=
  match shift_angles time trotter_order coefficient with
  | Some (_, plus, minus) =>
      [perturbed_step hamiltonian i plus angle;
       perturbed_step hamiltonian i minus angle]
  | None => []
  end.

(** All perturbed one-step circuits, in term-then-sign order. *)
Definition step_derivative_circuits (hamiltonian : QubitOperator) (time : S)
  (trotter_order : Z) (angle : S) : list Circuit :=
  flat_map
    (fun indexed =>
       term_derivative_circuits hamiltonian time trotter_order angle
         (fst indexed) (snd (snd indexed)))
    (enumerate (terms hamiltonian)).

(** All recorded factors, in term-then-sign order. *)
Definition step_factors (hamiltonian : QubitOperator) (trotter_order : Z)
  : list S :=
  flat_map (fun entry => term_factors trotter_order (snd entry))
           (terms hamiltonian).

(** [length] instances, instance [position] replaced. *)
Definition spliced (repeated_circuit different_circuit : Circuit)
  (length position : Z) : Circuit :=
  flat_map (splice_instance repeated_circuit different_circuit position)
           (range length).

(** For every slot, every perturbed one-step circuit spliced into
    [trotter_order] copies of the repeated circuit; slot index outermost. *)
Definition spliced_derivative_circuits (repeated_circuit : Circuit)
  (perturbed : list Circuit) (trotter_order : Z) : list Circuit :=
  flat_map
    (fun position =>
       map (fun different_circuit =>
              spliced repeated_circuit different_circuit trotter_order position)
           perturbed)
    (range trotter_order).

(** ** Measures on circuits *)

(** The qubits an operation acts on. *)
Definition operation_qubits (op : Operation) : list nat :=
  match op with
  | H qubit => [qubit]
  | RX _ qubit => [qubit]
  | RZ _ qubit => [qubit]
  | CNOT control target => [control; target]
  end.

Definition is_rz (op : Operation) : bool :=
  match op with
  | RZ _ _ => true
  | _ => false
  end.

(** An operation with the angle of an RZ rotation erased. *)
Definition without_rz_angle (op : Operation) : Operation :=
  match op with
  | RZ _ qubit => RZ (of_int 0) qubit
  | _ => op
  end.

(** The gates of a circuit, RZ angles apart. *)
Definition gate_layout (circuit : Circuit) : Circuit :=
  map without_rz_angle circuit.

(** The number of X and Y factors of a term. *)
Definition basis_changing_factors (key : pauli_key) : nat :=
  length (filter (fun component =>
                    match snd component with
                    | AxisZ => false
                    | _ => true
                    end) key).

(** The number of gates of the circuit of a term with k factors, b of them
    X or Y: 2b basis gates, 2(k-1) CNOTs and one RZ. *)
Definition term_gate_count (key : pauli_key) : nat :=
  match key with
  | [] => 0
  | _ :: _ => 2 * basis_changing_factors key + 2 * (length key - 1) + 1
  end.

(** A result that is not a [ValueError]. *)
Definition value_error_free {A : Type} (res : result A) : Prop :=
  forall msg, res <> Raise (ValueError msg).

(** ** Properties of time_evolution_for_term *)

(** Settles one direction of an equivalence between outcomes that have
    already been computed. *)
Ltac settle_direction :=
  let Hyp := fresh "Hyp" in
  intro Hyp;
  first [ lia
        | discriminate Hyp
        | reflexivity
        | eexists; reflexivity
        | let x := fresh "x" in let Hx := fresh "Hx" in
          destruct Hyp as [x Hx]; discriminate ].

Ltac settle_iff := split; settle_direction.

Lemma last_app_singleton {A : Type} (l : list A) (x d : A) :
  last (l ++ [x]) d = x.
Proof.
  induction l as [|y l IH]; simpl; [reflexivity|].
  destruct (l ++ [x]) eqn:E; [destruct l; discriminate|exact IH].
Qed.

(** The loop of [time_evolution_for_term], started after the components
    [pre] with the components [suffix] still to visit. *)
Lemma term_loop_spec (time coefficient : S) (suffix pre : pauli_key)
  (st : term_loop_state) :
  for_each
    (combine (seq (length pre) (length suffix))
             (combine (map snd suffix) (map fst suffix)))
    (term_loop_body time coefficient (length (pre ++ suffix))
       (map fst (pre ++ suffix)))
    st
  = Ok (mkTermLoop
          (base_changes st ++ flat_map basis_change suffix)
          (base_reversals st ++ flat_map basis_reversal suffix)
          (cnot_gates st
             ++ map (fun i => CNOT (qubit_at (pre ++ suffix) i)
                                   (qubit_at (pre ++ suffix) (i + 1)))
                    (seq (length pre) (length suffix - 1)))
          (match suffix with
           | [] => central_gate st
           | _ :: _ => Some (central_rotation (pre ++ suffix) coefficient time)
           end)).
Proof.
  revert pre st.
  induction suffix as [|[qubit_id term_type] rest IH]; intros pre st.
  - simpl. rewrite !app_nil_r. destruct st; reflexivity.
  - cbn [length seq map combine for_each].
    unfold term_loop_body at 1.
    destruct rest as [|next_component rest'].
    + (* the last component: the central gate *)
      replace (Z.of_nat (length pre) =? Z.of_nat (length (pre ++ [(qubit_id, term_type)])) - 1)%Z
        with true
        by (symmetry; apply Z.eqb_eq; rewrite length_app; simpl; lia).
      cbn [bind length seq map combine for_each flat_map Nat.sub].
      rewrite !app_nil_r.
      unfold central_rotation, last_qubit.
      rewrite map_app. cbn [map fst]. rewrite last_app_singleton.
      unfold basis_change, basis_reversal.
      destruct term_type; cbn [fst snd base_changes base_reversals cnot_gates
                                 central_gate];
        rewrite ?app_nil_r; reflexivity.
    + (* an inner component: one more CNOT of the staircase *)
      set (rest := next_component :: rest') in *.
      set (key := pre ++ (qubit_id, term_type) :: rest).
      replace (Z.of_nat (length pre) =? Z.of_nat (length key) - 1)%Z
        with false
        by (symmetry; apply Z.eqb_neq; unfold key, rest;
            rewrite length_app; simpl; lia).
      assert (Hnext : index (map fst key) (length pre + 1)
                      = Ok (qubit_at key (length pre + 1))).
      { unfold index, qubit_at.
        rewrite (nth_error_nth' (map fst key) 0); [reflexivity|].
        rewrite length_map. unfold key, rest. rewrite length_app. simpl. lia. }
      rewrite Hnext. cbn [bind].
      assert (Hkey : key = (pre ++ [(qubit_id, term_type)]) ++ rest)
        by (unfold key; rewrite <- app_assoc; reflexivity).
      assert (Hlen : Datatypes.S (length pre)
                     = length (pre ++ [(qubit_id, term_type)]))
        by (rewrite length_app; simpl; lia).
      rewrite Hlen, Hkey, IH. rewrite <- Hkey, <- Hlen.
      assert (Hhere : qubit_at key (length pre) = qubit_id).
      { unfold qubit_at, key. rewrite map_app, app_nth2; rewrite length_map;
          [|lia]. rewrite Nat.sub_diag. reflexivity. }
      assert (Hseq : seq (length pre) (Datatypes.S (length rest) - 1)
                     = length pre :: seq (Datatypes.S (length pre)) (length rest - 1)).
      { unfold rest. cbn [length Nat.sub]. rewrite Nat.sub_0_r. reflexivity. }
      rewrite Hseq. cbn [map flat_map]. rewrite Hhere.
      unfold basis_change, basis_reversal.
      destruct term_type; cbn [fst snd base_changes base_reversals cnot_gates
                                 central_gate app];
        rewrite <- ?app_assoc; reflexivity.
Qed.

(** On a single-term operator the function returns [term_circuit]. *)
Lemma time_evolution_for_term_single (key : pauli_key) (coefficient time : S) :
  time_evolution_for_term (single_term key coefficient) time
  = Ok (term_circuit key coefficient time).
Proof.
  unfold time_evolution_for_term, single_term.
  cbn [terms length Nat.eqb negb map fst snd index nth_error bind].
  destruct key as [|component key']; [reflexivity|].
  set (key := component :: key').
  unfold enumerate.
  rewrite length_combine, !length_map, Nat.min_id.
  pose proof (term_loop_spec time coefficient key [] (mkTermLoop [] [] [] None))
    as Hloop.
  cbn [length app] in Hloop. rewrite Hloop.
  cbn [bind base_changes base_reversals cnot_gates central_gate app].
  unfold key at 3. unfold term_circuit, key, emission_order, cnot_staircase.
  rewrite <- !app_assoc. reflexivity.
Qed.

(** C1: for a Pauli term with at least one (qubit, axis) factor and any
    angle, [time_evolution_for_term] emits, in this order: the basis-change
    gates in term order (H for X, RX(+pi/2) for Y, nothing for Z), the CNOT
    staircase CNOT(qubit i, qubit i+1) for i = 0..k-2, one
    RZ(2 * time * coefficient) on the last qubit, the CNOTs reversed, and the
    basis-reversal gates in term order; for Z on qubit [q0] and X on qubit
    [q1] this is [H q1; CNOT q0 q1; RZ; CNOT q0 q1; H q1]. *)
Theorem time_evolution_for_term_emission_order
  (key : pauli_key) (coefficient time : S) :
  key <> [] ->
  time_evolution_for_term (single_term key coefficient) time
  = Ok (flat_map basis_change key
          ++ map (fun i => CNOT (qubit_at key i) (qubit_at key (i + 1)))
                 (seq 0 (length key - 1))
          ++ [RZ (smul (smul (of_int 2) time) coefficient) (last_qubit key)]
          ++ rev (map (fun i => CNOT (qubit_at key i) (qubit_at key (i + 1)))
                      (seq 0 (length key - 1)))
          ++ flat_map basis_reversal key)
  /\ forall q0 q1 : nat,
       time_evolution_for_term
         (single_term [(q0, AxisZ); (q1, AxisX)] coefficient) time
       = Ok [H q1; CNOT q0 q1;
             RZ (smul (smul (of_int 2) time) coefficient) q1;
             CNOT q0 q1; H q1].
Proof.
  intros Hkey. split.
  - rewrite time_evolution_for_term_single.
    destruct key as [|component key']; [contradiction|reflexivity].
  - intros q0 q1. rewrite time_evolution_for_term_single. reflexivity.
Qed.

(** C8: [time_evolution_for_term] raises the malformed-term error exactly
    when the operator has zero or more than one entries in [terms]; on an
    operator with exactly one entry it does not raise and returns a
    circuit. *)
Theorem time_evolution_for_term_malformed_iff
  (term : QubitOperator) (time : S) :
  (time_evolution_for_term term time
   = Raise (ValueError "This function works only on a single term.")
   <-> length (terms term) <> 1)
  /\ ((exists e, time_evolution_for_term term time = Raise e)
      <-> length (terms term) <> 1)
  /\ (length (terms term) = 1
      <-> exists circuit, time_evolution_for_term term time = Ok circuit).
Proof.
  destruct term as [entries].
  destruct entries as [|[key coefficient] [|entry entries]].
  - cbn. (split; [|split]); settle_iff.
  - change (mkQubitOperator [(key, coefficient)])
      with (single_term key coefficient).
    rewrite time_evolution_for_term_single. cbn [terms length single_term].
    (split; [|split]); settle_iff.
  - cbn. (split; [|split]); settle_iff.
Qed.

(** ** Properties of time_evolution *)

Lemma generate_ok {A B : Type} (f : A -> result B) (g : A -> B)
  (xs : list A) :
  (forall x, In x xs -> f x = Ok (g x)) ->
  generate f xs = Ok (map g xs).
Proof.
  induction xs as [|x xs IH]; intros Hf; simpl; [reflexivity|].
  rewrite (Hf x (or_introl eq_refl)). simpl.
  rewrite IH by (intros y Hy; apply Hf; right; exact Hy).
  reflexivity.
Qed.

Lemma fold_left_app_concat {A : Type} (rest : list (list A)) (first : list A) :
  fold_left (fun acc c => acc ++ c) rest first = first ++ concat rest.
Proof.
  revert first; induction rest as [|c rest IH]; intros first; simpl.
  - symmetry; apply app_nil_r.
  - rewrite IH, app_assoc. reflexivity.
Qed.

Lemma reduce_add_nonempty (circuits : list Circuit) :
  circuits <> [] -> reduce_add circuits = Ok (concat circuits).
Proof.
  destruct circuits as [|first rest]; [contradiction|intros _].
  simpl. rewrite fold_left_app_concat. reflexivity.
Qed.

Lemma flat_map_constant {A B : Type} (ys : list B) (xs : list A) :
  flat_map (fun _ => ys) xs = concat (repeat ys (length xs)).
Proof.
  induction xs as [|x xs IH]; simpl; [reflexivity|].
  rewrite IH. reflexivity.
Qed.

Lemma length_range (n : Z) : length (range n) = Z.to_nat n.
Proof. unfold range. rewrite length_map, length_seq. reflexivity. Qed.

Lemma divide_some (x y q : S) : sdiv x y = Some q -> divide x y = Ok q.
Proof. unfold divide. intros ->. reflexivity. Qed.

(** Every operator produced by [get_operators] is accepted by
    [time_evolution_for_term]. *)
Lemma time_evolution_for_term_get_operators (hamiltonian : QubitOperator)
  (angle : S) (term : QubitOperator) :
  In term (get_operators hamiltonian) ->
  time_evolution_for_term term angle
  = Ok (one_step_circuit term angle).
Proof.
  unfold get_operators. intros Hin. apply in_map_iff in Hin.
  destruct Hin as [[key coefficient] [<- _]]. cbn [fst snd].
  rewrite time_evolution_for_term_single.
  unfold one_step_circuit, single_term. cbn [terms flat_map fst snd].
  rewrite app_nil_r. reflexivity.
Qed.

Lemma one_step_circuit_get_operators (hamiltonian : QubitOperator) (angle : S) :
  concat (map (fun term => one_step_circuit term angle)
              (get_operators hamiltonian))
  = one_step_circuit hamiltonian angle.
Proof.
  unfold get_operators, one_step_circuit.
  destruct hamiltonian as [entries]. cbn [terms].
  induction entries as [|entry entries IH]; [reflexivity|].
  cbn [map concat flat_map single_term terms]. rewrite IH, app_nil_r.
  reflexivity.
Qed.

(** The Trotter branch when the division [time / trotter_order] is
    defined: the generated per-term circuits, folded with [+]. *)
Lemma time_evolution_trotter_generate (hamiltonian : QubitOperator)
  (time angle : S) (trotter_order : Z) :
  sdiv time (of_int trotter_order) = Some angle ->
  time_evolution hamiltonian time "Trotter" trotter_order
  = reduce_add
      (map (fun term => one_step_circuit term angle)
           (flat_map (fun _ => get_operators hamiltonian) (range trotter_order))).
Proof.
  intros Hdiv. unfold time_evolution. cbn [String.eqb Ascii.eqb Bool.eqb negb].
  rewrite (generate_ok _ (fun term => one_step_circuit term angle)).
  - reflexivity.
  - intros term Hin. rewrite (divide_some _ _ _ Hdiv). cbn [bind].
    apply in_flat_map in Hin. destruct Hin as [_ [_ Hin]].
    apply (time_evolution_for_term_get_operators hamiltonian); exact Hin.
Qed.

Lemma concat_map_concat_repeat {A B : Type} (g : A -> list B) (xs : list A)
  (n : nat) :
  concat (map g (concat (repeat xs n)))
  = concat (repeat (concat (map g xs)) n).
Proof.
  induction n as [|n IH]; [reflexivity|].
  cbn [repeat concat]. rewrite map_app, concat_app, IH. reflexivity.
Qed.

Lemma Forall2_map_graph {A B : Type} (P : A -> B -> Prop) (g : A -> B)
  (xs : list A) :
  (forall x, In x xs -> P x (g x)) -> Forall2 P xs (map g xs).
Proof.
  induction xs as [|x xs IH]; intros HP; simpl; constructor.
  - apply HP. left. reflexivity.
  - apply IH. intros y Hy. apply HP. right. exact Hy.
Qed.

Lemma time_evolution_nonempty (hamiltonian : QubitOperator)
  (time angle : S) (trotter_order : Z) :
  terms hamiltonian <> [] ->
  (0 < trotter_order)%Z ->
  sdiv time (of_int trotter_order) = Some angle ->
  time_evolution hamiltonian time "Trotter" trotter_order
  = Ok (concat (repeat (one_step_circuit hamiltonian angle)
                       (Z.to_nat trotter_order))).
Proof.
  intros Hne Hpos Hdiv.
  rewrite (time_evolution_trotter_generate _ _ _ _ Hdiv).
  rewrite reduce_add_nonempty.
  - unfold Circuit.
    rewrite flat_map_constant, length_range, concat_map_concat_repeat,
      one_step_circuit_get_operators. reflexivity.
  - rewrite flat_map_constant, length_range.
    destruct (Z.to_nat trotter_order) as [|n] eqn:En; [lia|].
    unfold get_operators. destruct hamiltonian as [[|entry entries]];
      [contradiction|discriminate].
Qed.

(** C2: for a non-empty Hamiltonian, method "Trotter" and a positive
    [trotter_order] r (with [time / r] defined), [time_evolution] returns
    the concatenation, repetition index outermost and term index innermost,
    of the circuits [time_evolution_for_term] returns for the terms at angle
    [time / r]; for r = 2 over terms [T1, T2] it is
    (T1 at t/2) + (T2 at t/2) + (T1 at t/2) + (T2 at t/2). *)
Theorem time_evolution_trotter_concatenation (hamiltonian : QubitOperator)
  (time angle : S) (trotter_order : Z) :
  terms hamiltonian <> [] ->
  (0 < trotter_order)%Z ->
  sdiv time (of_int trotter_order) = Some angle ->
  (exists per_term : list Circuit,
     Forall2 (fun term circuit => time_evolution_for_term term angle = Ok circuit)
             (get_operators hamiltonian) per_term
     /\ time_evolution hamiltonian time "Trotter" trotter_order
        = Ok (flat_map (fun _repetition => concat per_term)
                       (range trotter_order)))
  /\ forall T1 T2 : pauli_key * S,
       hamiltonian = mkQubitOperator [T1; T2] ->
       trotter_order = 2%Z ->
       exists c1 c2 : Circuit,
         time_evolution_for_term (single_term (fst T1) (snd T1)) angle = Ok c1
         /\ time_evolution_for_term (single_term (fst T2) (snd T2)) angle = Ok c2
         /\ time_evolution hamiltonian time "Trotter" trotter_order
            = Ok (c1 ++ c2 ++ c1 ++ c2).
Proof.
  intros Hne Hpos Hdiv.
  pose proof (time_evolution_nonempty _ _ _ _ Hne Hpos Hdiv) as Hrun.
  split.
  - exists (map (fun term => one_step_circuit term angle)
                (get_operators hamiltonian)).
    split.
    + apply Forall2_map_graph. intros term Hin.
      apply (time_evolution_for_term_get_operators hamiltonian); exact Hin.
    + rewrite Hrun, flat_map_constant, length_range,
        one_step_circuit_get_operators. reflexivity.
  - intros [key1 coef1] [key2 coef2] -> ->.
    exists (term_circuit key1 coef1 angle), (term_circuit key2 coef2 angle).
    rewrite !time_evolution_for_term_single, Hrun.
    repeat split.
    unfold one_step_circuit.
    change (Z.to_nat 2) with 2.
    cbn [terms flat_map fst snd repeat concat].
    rewrite ?app_nil_r, <- ?app_assoc. reflexivity.
Qed.

(** Without terms the generator is empty, whatever the number of
    repetitions, and the fold has nothing to start from. *)
Lemma time_evolution_without_terms (hamiltonian : QubitOperator) (time : S)
  (trotter_order : Z) :
  terms hamiltonian = [] ->
  time_evolution hamiltonian time "Trotter" trotter_order = Raise TypeError.
Proof.
  intros Hempty.
  unfold time_evolution. cbn [String.eqb Ascii.eqb Bool.eqb negb].
  unfold get_operators. rewrite Hempty. cbn [map].
  rewrite flat_map_constant.
  replace (concat (repeat [] (length (range trotter_order))))
    with (@nil QubitOperator); [reflexivity|].
  induction (length (range trotter_order)) as [|n IH]; [reflexivity|exact IH].
Qed.

(** C6: on an empty Hamiltonian [time_evolution] does not return the empty
    circuit: the fold of [+] has no first circuit and [TypeError] is
    raised, for every time and every [trotter_order]. *)
Theorem time_evolution_empty_hamiltonian_raises (time : S)
  (trotter_order : Z) :
  time_evolution (mkQubitOperator []) time "Trotter" trotter_order
  = Raise TypeError.
Proof. apply time_evolution_without_terms. reflexivity. Qed.

(** C7: for a method other than "Trotter", [time_evolution] and
    [time_evolution_derivatives] raise a [ValueError] whose message
    contains the rejected method, and return nothing. *)
Theorem unsupported_method_rejected (hamiltonian : QubitOperator) (time : S)
  (method : string) (trotter_order : Z) :
  method <> "Trotter" ->
  time_evolution hamiltonian time method trotter_order
  = Raise (ValueError
             ("Currently the method " ++ method ++ " is not supported.")%string)
  /\ time_evolution_derivatives hamiltonian time method trotter_order
     = Raise (ValueError
                ("The method " ++ method ++ " is currently not supported.")%string).
Proof.
  intros Hmethod. apply String.eqb_neq in Hmethod.
  unfold time_evolution, time_evolution_derivatives.
  rewrite Hmethod. split; reflexivity.
Qed.

(** ** Properties of _generate_circuit_sequence *)

(** Slots that all differ from [position] hold the repeated circuit. *)
Lemma slots_away_from_position (repeated_circuit different_circuit : Circuit)
  (position : Z) (count start : nat) :
  (forall i, start <= i < start + count -> Z.of_nat i <> position) ->
  concat (map (fun i => if negb (i =? position)%Z then repeated_circuit
                        else different_circuit)
              (map Z.of_nat (seq start count)))
  = concat (repeat repeated_circuit count).
Proof.
  revert start; induction count as [|count IH]; intros start Haway;
    [reflexivity|].
  cbn [seq map concat repeat].
  rewrite IH by (intros i Hi; apply Haway; lia).
  assert (Hne : (Z.of_nat start =? position)%Z = false)
    by (apply Z.eqb_neq, Haway; lia).
  rewrite Hne. reflexivity.
Qed.

Lemma generate_circuit_sequence_below
  (repeated_circuit different_circuit : Circuit) (length position : Z) :
  (position < length)%Z ->
  _generate_circuit_sequence repeated_circuit different_circuit length position
  = Ok (spliced repeated_circuit different_circuit length position).
Proof.
  intros Hlt. unfold _generate_circuit_sequence, spliced.
  replace (position >=? length)%Z with false by (symmetry; lia).
  rewrite flat_map_concat_map. do 2 f_equal. apply map_ext. intros i.
  unfold splice_instance.
  destruct (Z.eq_dec i position) as [->|Hne].
  - rewrite Z.eqb_refl. reflexivity.
  - apply Z.eqb_neq in Hne. rewrite Hne. reflexivity.
Qed.

Lemma generate_circuit_sequence_in_range
  (repeated_circuit different_circuit : Circuit) (length position : Z) :
  (0 <= position < length)%Z ->
  _generate_circuit_sequence repeated_circuit different_circuit length position
  = Ok (concat (repeat repeated_circuit (Z.to_nat position))
          ++ different_circuit
          ++ concat (repeat repeated_circuit
                            (Z.to_nat (length - position - 1)))).
Proof.
  intros Hrange. unfold _generate_circuit_sequence, range.
  replace (position >=? length)%Z with false by (symmetry; lia).
  f_equal.
  replace (Z.to_nat length)
    with (Z.to_nat position + Datatypes.S (Z.to_nat (length - position - 1)))
    by lia.
  rewrite seq_app. cbn [seq Nat.add]. rewrite !map_app, concat_app.
  cbn [map concat].
  rewrite !slots_away_from_position by (intros i Hi; lia).
  replace (Z.of_nat (Z.to_nat position) =? position)%Z with true
    by (symmetry; apply Z.eqb_eq; lia).
  reflexivity.
Qed.

Lemma generate_circuit_sequence_negative
  (repeated_circuit different_circuit : Circuit) (length position : Z) :
  (position < 0)%Z -> (0 <= length)%Z ->
  _generate_circuit_sequence repeated_circuit different_circuit length position
  = Ok (concat (repeat repeated_circuit (Z.to_nat length))).
Proof.
  intros Hneg Hlen. unfold _generate_circuit_sequence, range.
  replace (position >=? length)%Z with false by (symmetry; lia).
  rewrite slots_away_from_position by (intros i Hi; lia).
  reflexivity.
Qed.

(** C5: for [position < length], [_generate_circuit_sequence] returns the
    concatenation of [length] instances, instance [i] being the repeated
    circuit when [i <> position] and the different circuit when
    [i = position] (for a slot in [0, length): [position] copies of R, then
    D, then the remaining copies of R; R + D + R for length 3, position 1);
    for [position >= length] it raises the range error (position 3 of 3
    included). *)
Theorem generate_circuit_sequence_spec
  (repeated_circuit different_circuit : Circuit) (length position : Z) :
  ((position < length)%Z ->
   _generate_circuit_sequence repeated_circuit different_circuit length position
   = Ok (flat_map (splice_instance repeated_circuit different_circuit position)
                  (range length)))
  /\ ((0 <= position < length)%Z ->
      _generate_circuit_sequence repeated_circuit different_circuit
        length position
      = Ok (concat (repeat repeated_circuit (Z.to_nat position))
              ++ different_circuit
              ++ concat (repeat repeated_circuit
                                (Z.to_nat (length - position - 1)))))
  /\ _generate_circuit_sequence repeated_circuit different_circuit 3 1
     = Ok (repeated_circuit ++ different_circuit ++ repeated_circuit)
  /\ ((position >= length)%Z ->
      _generate_circuit_sequence repeated_circuit different_circuit
        length position
      = Raise (ValueError
                 ("Position " ++ str_int position ++ " should be < "
                    ++ str_int length)%string))
  /\ _generate_circuit_sequence repeated_circuit different_circuit 3 3
     = Raise (ValueError "Position 3 should be < 3").
Proof.
  repeat apply conj.
  - apply generate_circuit_sequence_below.
  - apply generate_circuit_sequence_in_range.
  - rewrite generate_circuit_sequence_in_range by lia.
    change (Z.to_nat 1) with 1. change (Z.to_nat (3 - 1 - 1)) with 1.
    cbn [repeat concat]. rewrite !app_nil_r. reflexivity.
  - intros Hge. unfold _generate_circuit_sequence.
    replace (position >=? length)%Z with true by (symmetry; lia).
    reflexivity.
  - reflexivity.
Qed.

(** C10: for a negative [position] and [length >= 0],
    [_generate_circuit_sequence] raises nothing and returns [length] copies
    of the repeated circuit, the different circuit not being used (the
    result is the same for every different circuit). *)
Theorem generate_circuit_sequence_negative_position
  (repeated_circuit different_circuit : Circuit) (length position : Z) :
  (position < 0)%Z ->
  (0 <= length)%Z ->
  _generate_circuit_sequence repeated_circuit different_circuit length position
  = Ok (concat (repeat repeated_circuit (Z.to_nat length)))
  /\ forall other_circuit : Circuit,
       _generate_circuit_sequence repeated_circuit other_circuit length position
       = _generate_circuit_sequence repeated_circuit different_circuit
           length position.
Proof.
  intros Hneg Hlen. split.
  - apply generate_circuit_sequence_negative; assumption.
  - intros other_circuit.
    rewrite !generate_circuit_sequence_negative by assumption. reflexivity.
Qed.

(** ** Properties of time_evolution_derivatives *)

(** On a [QubitOperator] term the [try] block is a plain division: the
    [TypeError] handler is never entered. *)
Lemma per_repetition_coefficient_qubit (key : pauli_key) (coefficient : S)
  (trotter_order : Z) :
  per_repetition_coefficient (QubitTerm (single_term key coefficient))
    trotter_order
  = divide coefficient (of_int trotter_order).
Proof.
  unfold per_repetition_coefficient, single_term, divide.
  cbn [terms map snd index nth_error bind].
  destruct (sdiv coefficient (of_int trotter_order)); reflexivity.
Qed.

(** The inner loop over [enumerate(terms)], from index [start]. *)
Lemma perturbed_loop_spec (time shift angle shifted : S) (trotter_order : Z)
  (i : nat) :
  sdiv (sadd time shift) (of_int trotter_order) = Some shifted ->
  sdiv time (of_int trotter_order) = Some angle ->
  forall (entries : list (pauli_key * S)) (start : nat) (output : Circuit),
    for_each
      (combine (seq start (length entries))
               (map (fun entry => single_term (fst entry) (snd entry)) entries))
      (fun '(j, term_2) output =>
         angle <- (if i =? j
                   then divide (sadd time shift) (of_int trotter_order)
                   else divide time (of_int trotter_order)) ;;
         circuit <- time_evolution_for_term term_2 angle ;;
         Ok (output ++ circuit))
      output
    = Ok (output
            ++ flat_map
                 (fun indexed =>
                    term_circuit (fst (snd indexed)) (snd (snd indexed))
                      (if fst indexed =? i then shifted else angle))
                 (combine (seq start (length entries)) entries)).
Proof.
  intros Hshifted Hangle.
  rewrite (divide_some _ _ _ Hshifted), (divide_some _ _ _ Hangle).
  intros entries.
  induction entries as [|[key coefficient] entries IH]; intros start output.
  - simpl. rewrite app_nil_r. reflexivity.
  - cbn [length seq map combine for_each flat_map fst snd].
    rewrite (Nat.eqb_sym start i).
    destruct (i =? start); cbn [bind];
      rewrite time_evolution_for_term_single; cbn [bind];
      rewrite IH, app_assoc; reflexivity.
Qed.

(** One run of the loop body, when its divisions are defined. *)
Lemma derivative_loop_body_spec (hamiltonian : QubitOperator)
  (time : S) (trotter_order : Z) (i : nat) (key : pauli_key)
  (coefficient factor r_i shifted angle : S)
  (circuits : list Circuit) (recorded : list S) :
  sdiv coefficient (of_int trotter_order) = Some r_i ->
  shifted_angle time trotter_order factor r_i = Some shifted ->
  sdiv time (of_int trotter_order) = Some angle ->
  derivative_loop_body (get_operators hamiltonian) time trotter_order i
    (single_term key coefficient) factor (circuits, recorded)
  = Ok (circuits ++ [perturbed_step hamiltonian i shifted angle],
        recorded ++ [smul r_i factor]).
Proof.
  intros Hr Hshifted Hangle.
  unfold derivative_loop_body.
  rewrite per_repetition_coefficient_qubit, (divide_some _ _ _ Hr).
  cbn [bind].
  unfold shifted_angle, parameter_shift in Hshifted.
  destruct (sdiv pi (smul (of_float 4) r_i)) as [q|] eqn:Hq;
    [|discriminate].
  cbn [option_map] in Hshifted.
  rewrite (divide_some _ _ _ Hq). cbn [bind].
  unfold enumerate, get_operators. rewrite length_map.
  rewrite (perturbed_loop_spec _ _ _ _ _ _ Hshifted Hangle).
  reflexivity.
Qed.

(** The two outer loops, from term index [start]. *)
Lemma single_trotter_loop_from (hamiltonian : QubitOperator) (time angle : S)
  (trotter_order : Z) :
  sdiv time (of_int trotter_order) = Some angle ->
  forall (entries : list (pauli_key * S)) (start : nat)
         (circuits : list Circuit) (recorded : list S),
    (forall entry, In entry entries ->
                   shift_angles time trotter_order (snd entry) <> None) ->
    for_each
      (combine (seq start (length entries))
               (map (fun entry => single_term (fst entry) (snd entry)) entries))
      (fun '(i, term_1) st =>
         for_each factors
           (fun factor st =>
              derivative_loop_body (get_operators hamiltonian) time
                trotter_order i term_1 factor st)
           st)
      (circuits, recorded)
    = Ok (circuits
            ++ flat_map
                 (fun indexed =>
                    term_derivative_circuits hamiltonian time trotter_order
                      angle (fst indexed) (snd (snd indexed)))
                 (combine (seq start (length entries)) entries),
          recorded
            ++ flat_map (fun entry => term_factors trotter_order (snd entry))
                        entries).
Proof.
  intros Hangle entries.
  induction entries as [|[key coefficient] entries IH];
    intros start circuits recorded Hdefined.
  - simpl. rewrite !app_nil_r. reflexivity.
  - cbn [length seq map combine for_each flat_map fst snd].
    assert (Hhere : shift_angles time trotter_order coefficient <> None)
      by (apply (Hdefined (key, coefficient)); left; reflexivity).
    unfold term_derivative_circuits at 1, term_factors at 1.
    unfold shift_angles in Hhere |- *.
    destruct (sdiv coefficient (of_int trotter_order)) as [r_i|] eqn:Hr;
      [|contradiction].
    destruct (shifted_angle time trotter_order (of_float 1) r_i)
      as [plus|] eqn:Hplus; [|contradiction].
    destruct (shifted_angle time trotter_order (of_float (-1)) r_i)
      as [minus|] eqn:Hminus; [|contradiction].
    unfold factors. cbn [for_each].
    rewrite (derivative_loop_body_spec _ _ _ _ _ _ _ _ _ _ _ _
               Hr Hplus Hangle).
    cbn [bind].
    rewrite (derivative_loop_body_spec _ _ _ _ _ _ _ _ _ _ _ _
               Hr Hminus Hangle).
    cbn [bind].
    rewrite IH by (intros entry Hin; apply Hdefined; right; exact Hin).
    rewrite <- !app_assoc. reflexivity.
Qed.

Lemma single_trotter_loop_spec (hamiltonian : QubitOperator) (time angle : S)
  (trotter_order : Z) :
  sdiv time (of_int trotter_order) = Some angle ->
  (forall entry, In entry (terms hamiltonian) ->
                 shift_angles time trotter_order (snd entry) <> None) ->
  single_trotter_loop (get_operators hamiltonian) time trotter_order
  = Ok (step_derivative_circuits hamiltonian time trotter_order angle,
        step_factors hamiltonian trotter_order).
Proof.
  intros Hangle Hdefined.
  unfold single_trotter_loop, enumerate, get_operators at 1 2.
  rewrite length_map.
  rewrite (single_trotter_loop_from hamiltonian time angle trotter_order
             Hangle (terms hamiltonian) 0 [] [] Hdefined).
  reflexivity.
Qed.

(** On a [QubitOperator] term no [ValueError] comes out of the [try]
    block, whatever the coefficient. *)
Lemma per_repetition_coefficient_qubit_no_value_error (op : QubitOperator)
  (trotter_order : Z) (msg : string) :
  per_repetition_coefficient (QubitTerm op) trotter_order
  <> Raise (ValueError msg).
Proof.
  unfold per_repetition_coefficient, index, divide.
  destruct (nth_error (map snd (terms op)) 0) as [c|]; cbn [bind];
    [|discriminate].
  destruct (sdiv c (of_int trotter_order)); discriminate.
Qed.

(** On another term object a coefficient that [complex] rejects gives the
    [ValueError] naming the term. *)
Lemma per_repetition_coefficient_other_rejected (coefficient : S)
  (trotter_order : Z) :
  complex_real coefficient = None ->
  per_repetition_coefficient (OtherTerm coefficient) trotter_order
  = Raise (ValueError
             ("Term coefficients need to be numerical. Offending term: "
                ++ str_term (OtherTerm coefficient))%string).
Proof.
  intros Hsym. unfold per_repetition_coefficient. rewrite Hsym. reflexivity.
Qed.

(** The inner loop of the splicing phase, for one slot. *)
Lemma splice_pairs_loop (repeated_circuit : Circuit) (trotter_order position : Z) :
  (position < trotter_order)%Z ->
  forall (pairs : list (S * Circuit)) (output_circuits : list Circuit)
         (final_factors : list S),
    for_each pairs
      (fun '(factor, different_circuit) '(output_circuits, final_factors) =>
         circuit <- _generate_circuit_sequence repeated_circuit
                      different_circuit trotter_order position ;;
         Ok (output_circuits ++ [circuit], final_factors ++ [factor]))
      (output_circuits, final_factors)
    = Ok (output_circuits
            ++ map (fun pair => spliced repeated_circuit (snd pair)
                                  trotter_order position) pairs,
          final_factors ++ map fst pairs).
Proof.
  intros Hlt pairs.
  induction pairs as [|[factor different_circuit] pairs IH];
    intros output_circuits final_factors.
  - simpl. rewrite !app_nil_r. reflexivity.
  - cbn [for_each map fst snd].
    rewrite generate_circuit_sequence_below by exact Hlt. cbn [bind].
    rewrite IH, <- !app_assoc. reflexivity.
Qed.

(** The outer loop of the splicing phase, over the slots from [start]. *)
Lemma splice_slots_loop (repeated_circuit : Circuit) (trotter_order : Z)
  (pairs : list (S * Circuit)) :
  forall (count start : nat) (output_circuits : list Circuit)
         (final_factors : list S),
    (Z.of_nat (start + count) <= trotter_order)%Z ->
    for_each (map Z.of_nat (seq start count))
      (fun position st =>
         for_each pairs
           (fun '(factor, different_circuit) '(output_circuits, final_factors) =>
              circuit <- _generate_circuit_sequence repeated_circuit
                           different_circuit trotter_order position ;;
              Ok (output_circuits ++ [circuit], final_factors ++ [factor]))
           st)
      (output_circuits, final_factors)
    = Ok (output_circuits
            ++ flat_map
                 (fun position =>
                    map (fun pair => spliced repeated_circuit (snd pair)
                                       trotter_order position) pairs)
                 (map Z.of_nat (seq start count)),
          final_factors ++ concat (repeat (map fst pairs) count)).
Proof.
  induction count as [|count IH];
    intros start output_circuits final_factors Hbound.
  - simpl. rewrite !app_nil_r. reflexivity.
  - cbn [seq map for_each flat_map repeat concat].
    rewrite splice_pairs_loop by lia. cbn [bind].
    rewrite IH by lia. rewrite <- !app_assoc. reflexivity.
Qed.

Lemma map_fst_combine {A B : Type} (xs : list A) (ys : list B) :
  length xs = length ys -> map fst (combine xs ys) = xs.
Proof.
  revert ys; induction xs as [|x xs IH]; intros [|y ys] Hlen;
    try discriminate; [reflexivity|].
  simpl. rewrite IH by (simpl in Hlen; lia). reflexivity.
Qed.

Lemma map_snd_combine {A B : Type} (xs : list A) (ys : list B) :
  length xs = length ys -> map snd (combine xs ys) = ys.
Proof.
  revert ys; induction xs as [|x xs IH]; intros [|y ys] Hlen;
    try discriminate; [reflexivity|].
  simpl. rewrite IH by (simpl in Hlen; lia). reflexivity.
Qed.

Lemma length_concat_repeat {A : Type} (xs : list A) (n : nat) :
  length (concat (repeat xs n)) = n * length xs.
Proof.
  induction n as [|n IH]; [reflexivity|].
  cbn [repeat concat]. rewrite length_app, IH. lia.
Qed.

Lemma length_flat_map_pairs {A B : Type} (f : A -> list B) (xs : list A) :
  (forall x, In x xs -> length (f x) = 2) ->
  length (flat_map f xs) = 2 * length xs.
Proof.
  induction xs as [|x xs IH]; intros Hf; [reflexivity|].
  cbn [flat_map length]. rewrite length_app, (Hf x (or_introl eq_refl)).
  rewrite IH by (intros y Hy; apply Hf; right; exact Hy). lia.
Qed.

Lemma flat_map_constant_length {A B : Type} (f : A -> list B) (xs : list A)
  (n : nat) :
  (forall x, In x xs -> length (f x) = n) ->
  length (flat_map f xs) = length xs * n.
Proof.
  induction xs as [|x xs IH]; intros Hf; [reflexivity|].
  cbn [flat_map length]. rewrite length_app, (Hf x (or_introl eq_refl)).
  rewrite IH by (intros y Hy; apply Hf; right; exact Hy). lia.
Qed.

Lemma length_step_factors (hamiltonian : QubitOperator) (time : S)
  (trotter_order : Z) :
  (forall entry, In entry (terms hamiltonian) ->
                 shift_angles time trotter_order (snd entry) <> None) ->
  length (step_factors hamiltonian trotter_order)
  = 2 * length (terms hamiltonian).
Proof.
  intros Hdefined. unfold step_factors. apply length_flat_map_pairs.
  intros entry Hin. specialize (Hdefined entry Hin).
  unfold shift_angles in Hdefined. unfold term_factors.
  destruct (sdiv (snd entry) (of_int trotter_order));
    [reflexivity|contradiction].
Qed.

Lemma length_step_derivative_circuits (hamiltonian : QubitOperator)
  (time angle : S) (trotter_order : Z) :
  (forall entry, In entry (terms hamiltonian) ->
                 shift_angles time trotter_order (snd entry) <> None) ->
  length (step_derivative_circuits hamiltonian time trotter_order angle)
  = 2 * length (terms hamiltonian).
Proof.
  intros Hdefined. unfold step_derivative_circuits.
  rewrite length_flat_map_pairs.
  - unfold enumerate. rewrite length_combine, length_seq, Nat.min_id.
    reflexivity.
  - intros [i entry] Hin. unfold enumerate in Hin.
    apply in_combine_r in Hin. specialize (Hdefined entry Hin).
    unfold term_derivative_circuits. cbn [fst snd].
    destruct (shift_angles time trotter_order (snd entry)) as [[[r_i plus] minus]|];
      [reflexivity|contradiction].
Qed.

(** The whole function for [trotter_order = 1]. *)
Lemma time_evolution_derivatives_order_one (hamiltonian : QubitOperator)
  (time angle : S) :
  sdiv time (of_int 1) = Some angle ->
  (forall entry, In entry (terms hamiltonian) ->
                 shift_angles time 1 (snd entry) <> None) ->
  time_evolution_derivatives hamiltonian time "Trotter" 1
  = Ok (step_derivative_circuits hamiltonian time 1 angle,
        step_factors hamiltonian 1).
Proof.
  intros Hangle Hdefined. unfold time_evolution_derivatives.
  cbn [String.eqb Ascii.eqb Bool.eqb negb].
  rewrite (single_trotter_loop_spec _ _ _ _ Hangle Hdefined).
  reflexivity.
Qed.

(** The whole function for [trotter_order > 1] on a non-empty
    Hamiltonian. *)
Lemma time_evolution_derivatives_higher_order (hamiltonian : QubitOperator)
  (time angle step_angle : S) (trotter_order : Z) :
  (1 < trotter_order)%Z ->
  terms hamiltonian <> [] ->
  sdiv time (of_int trotter_order) = Some angle ->
  sdiv time (of_int 1) = Some step_angle ->
  (forall entry, In entry (terms hamiltonian) ->
                 shift_angles time trotter_order (snd entry) <> None) ->
  time_evolution_derivatives hamiltonian time "Trotter" trotter_order
  = Ok (spliced_derivative_circuits
          (one_step_circuit hamiltonian step_angle)
          (step_derivative_circuits hamiltonian time trotter_order angle)
          trotter_order,
        concat (repeat (step_factors hamiltonian trotter_order)
                       (Z.to_nat trotter_order))).
Proof.
  intros Hr Hne Hangle Hstep Hdefined. unfold time_evolution_derivatives.
  cbn [String.eqb Ascii.eqb Bool.eqb negb].
  rewrite (single_trotter_loop_spec _ _ _ _ Hangle Hdefined). cbn [bind].
  replace (trotter_order >? 1)%Z with true by (symmetry; lia).
  rewrite (time_evolution_nonempty hamiltonian time step_angle 1 Hne
             Z.lt_0_1 Hstep).
  cbn [bind]. change (Z.to_nat 1) with 1. cbn [repeat concat].
  rewrite app_nil_r.
  unfold range at 1.
  rewrite splice_slots_loop by lia. cbn [app].
  assert (Hlen : length (step_factors hamiltonian trotter_order)
                 = length (step_derivative_circuits hamiltonian time
                             trotter_order angle))
    by (rewrite (length_step_factors _ time), length_step_derivative_circuits;
        auto).
  rewrite (map_fst_combine _ _ Hlen).
  unfold spliced_derivative_circuits, range. do 2 f_equal.
  apply flat_map_ext. intros position.
  rewrite <- (map_snd_combine _ _ Hlen) at 2. rewrite map_map. reflexivity.
Qed.

(** Without terms and with [trotter_order > 1] the repeated circuit cannot
    be built: the call to [time_evolution] raises. *)
Lemma time_evolution_derivatives_without_terms (time : S)
  (trotter_order : Z) :
  (1 < trotter_order)%Z ->
  time_evolution_derivatives (mkQubitOperator []) time "Trotter" trotter_order
  = Raise TypeError.
Proof.
  intros Hr. unfold time_evolution_derivatives.
  cbn [String.eqb Ascii.eqb Bool.eqb negb].
  unfold single_trotter_loop, get_operators, enumerate.
  cbn [terms map length seq combine for_each bind].
  replace (trotter_order >? 1)%Z with true by (symmetry; lia).
  rewrite time_evolution_without_terms by reflexivity. reflexivity.
Qed.

(** The recorded factors are [r_i * (+1)], [r_i * (-1)] for the
    per-repetition coefficients [r_i = c_i / trotter_order]. *)
Lemma step_factors_per_repetition (hamiltonian : QubitOperator) (time : S)
  (trotter_order : Z) :
  (forall entry, In entry (terms hamiltonian) ->
                 shift_angles time trotter_order (snd entry) <> None) ->
  exists per_repetition : list S,
    Forall2 (fun entry r_i => sdiv (snd entry) (of_int trotter_order) = Some r_i)
            (terms hamiltonian) per_repetition
    /\ step_factors hamiltonian trotter_order
       = flat_map (fun r_i => [smul r_i (of_float 1); smul r_i (of_float (-1))])
                  per_repetition.
Proof.
  unfold step_factors. destruct hamiltonian as [entries]. cbn [terms].
  induction entries as [|entry entries IH]; intros Hdefined.
  - exists []. split; [constructor|reflexivity].
  - destruct IH as [per_repetition [Hall Hfactors]];
      [intros e He; apply Hdefined; right; exact He|].
    pose proof (Hdefined entry (or_introl eq_refl)) as Hhere.
    unfold shift_angles in Hhere.
    destruct (sdiv (snd entry) (of_int trotter_order)) as [r_i|] eqn:Hr;
      [|contradiction].
    exists (r_i :: per_repetition). split; [constructor; assumption|].
    cbn [flat_map]. unfold term_factors at 1. rewrite Hr, Hfactors.
    reflexivity.
Qed.

(** The element at position [i] of [enumerate]. *)
Lemma nth_error_enumerate_from {A : Type} (xs : list A) (start i : nat)
  (x : A) :
  nth_error xs i = Some x ->
  nth_error (combine (seq start (length xs)) xs) i = Some (start + i, x).
Proof.
  revert start i. induction xs as [|y xs IH]; intros start [|i] Hith;
    try discriminate.
  - injection Hith as ->. cbn. rewrite Nat.add_0_r. reflexivity.
  - cbn [length seq combine nth_error]. rewrite (IH (Datatypes.S start) i Hith).
    f_equal. f_equal. lia.
Qed.

(** Where every element contributes two entries, element [i] contributes
    the entries at positions [2i] and [2i + 1]. *)
Lemma nth_error_flat_map_two {A B : Type} (h : A -> list B) (xs : list A) :
  (forall y, In y xs -> length (h y) = 2) ->
  forall (i : nat) (x : A) (b0 b1 : B),
    nth_error xs i = Some x ->
    h x = [b0; b1] ->
    nth_error (flat_map h xs) (2 * i) = Some b0
    /\ nth_error (flat_map h xs) (2 * i + 1) = Some b1.
Proof.
  induction xs as [|y xs IH]; intros Htwo [|i] x b0 b1 Hith Hx;
    try discriminate.
  - injection Hith as ->. cbn [flat_map]. rewrite Hx. split; reflexivity.
  - cbn [nth_error] in Hith. cbn [flat_map].
    pose proof (Htwo y (or_introl eq_refl)) as Hy.
    destruct (IH (fun z Hz => Htwo z (or_intror Hz)) i x b0 b1 Hith Hx)
      as [Heven Hodd].
    split.
    + rewrite nth_error_app2 by lia.
      replace (2 * Datatypes.S i - length (h y)) with (2 * i) by lia.
      exact Heven.
    + rewrite nth_error_app2 by lia.
      replace (2 * Datatypes.S i + 1 - length (h y)) with (2 * i + 1) by lia.
      exact Hodd.
Qed.

(** The whole function for [trotter_order <= 1]: the result of the
    loops. *)
Lemma time_evolution_derivatives_low_order (hamiltonian : QubitOperator)
  (time angle : S) (trotter_order : Z) :
  (trotter_order <= 1)%Z ->
  sdiv time (of_int trotter_order) = Some angle ->
  (forall entry, In entry (terms hamiltonian) ->
                 shift_angles time trotter_order (snd entry) <> None) ->
  time_evolution_derivatives hamiltonian time "Trotter" trotter_order
  = Ok (step_derivative_circuits hamiltonian time trotter_order angle,
        step_factors hamiltonian trotter_order).
Proof.
  intros Hr Hangle Hdefined. unfold time_evolution_derivatives.
  cbn [String.eqb Ascii.eqb Bool.eqb negb].
  rewrite (single_trotter_loop_spec _ _ _ _ Hangle Hdefined). cbn [bind].
  replace (trotter_order >? 1)%Z with false by (symmetry; lia).
  reflexivity.
Qed.

(** The two perturbed circuits and the two factors of term [i] in the
    lists the loops build. *)
Lemma step_derivatives_of_term (hamiltonian : QubitOperator) (time angle : S)
  (trotter_order : Z) (i : nat) (key : pauli_key) (c_i : S) :
  (forall entry, In entry (terms hamiltonian) ->
                 shift_angles time trotter_order (snd entry) <> None) ->
  nth_error (terms hamiltonian) i = Some (key, c_i) ->
  exists r_i quotient plus minus : S,
    sdiv c_i (of_int trotter_order) = Some r_i
    /\ sdiv pi (smul (of_float 4) r_i) = Some quotient
    /\ sdiv (sadd time (smul (of_float 1) quotient)) (of_int trotter_order)
       = Some plus
    /\ sdiv (sadd time (smul (of_float (-1)) quotient)) (of_int trotter_order)
       = Some minus
    /\ nth_error (step_derivative_circuits hamiltonian time trotter_order angle)
         (2 * i)
       = Some (perturbed_step hamiltonian i plus angle)
    /\ nth_error (step_derivative_circuits hamiltonian time trotter_order angle)
         (2 * i + 1)
       = Some (perturbed_step hamiltonian i minus angle)
    /\ nth_error (step_factors hamiltonian trotter_order) (2 * i)
       = Some (smul r_i (of_float 1))
    /\ nth_error (step_factors hamiltonian trotter_order) (2 * i + 1)
       = Some (smul r_i (of_float (-1))).
Proof.
  intros Hdefined Hith.
  pose proof (Hdefined (key, c_i) (nth_error_In _ _ Hith)) as Hhere.
  cbn [snd] in Hhere.
  destruct (shift_angles time trotter_order c_i) as [[[r_0 plus] minus]|]
    eqn:Hshift; [clear Hhere|contradiction].
  pose proof Hshift as Hparts.
  unfold shift_angles, shifted_angle, parameter_shift in Hparts.
  destruct (sdiv c_i (of_int trotter_order)) as [r_i|] eqn:Hr;
    [|discriminate].
  destruct (sdiv pi (smul (of_float 4) r_i)) as [quotient|] eqn:Hquotient;
    cbn [option_map] in Hparts; [|discriminate].
  destruct (sdiv (sadd time (smul (of_float 1) quotient))
                 (of_int trotter_order)) as [plus'|] eqn:Hplus;
    [|discriminate].
  destruct (sdiv (sadd time (smul (of_float (-1)) quotient))
                 (of_int trotter_order)) as [minus'|] eqn:Hminus;
    [|discriminate].
  injection Hparts as <- <- <-.
  exists r_i, quotient, plus', minus'.
  repeat (split; [reflexivity|]).
  assert (Hcircuits :
            nth_error (step_derivative_circuits hamiltonian time trotter_order
                         angle) (2 * i)
            = Some (perturbed_step hamiltonian i plus' angle)
            /\ nth_error (step_derivative_circuits hamiltonian time
                            trotter_order angle) (2 * i + 1)
               = Some (perturbed_step hamiltonian i minus' angle)).
  { unfold step_derivative_circuits.
    apply (nth_error_flat_map_two _ _) with (x := (i, (key, c_i))).
    - intros [j entry] Hin. unfold enumerate in Hin.
      apply in_combine_r in Hin. specialize (Hdefined entry Hin).
      unfold term_derivative_circuits. cbn [fst snd].
      destruct (shift_angles time trotter_order (snd entry))
        as [[[r_j plus_j] minus_j]|]; [reflexivity|contradiction].
    - unfold enumerate.
      rewrite (nth_error_enumerate_from _ 0 i _ Hith). reflexivity.
    - unfold term_derivative_circuits. cbn [fst snd]. rewrite Hshift.
      reflexivity. }
  assert (Hfactors :
            nth_error (step_factors hamiltonian trotter_order) (2 * i)
            = Some (smul r_i (of_float 1))
            /\ nth_error (step_factors hamiltonian trotter_order) (2 * i + 1)
               = Some (smul r_i (of_float (-1)))).
  { unfold step_factors.
    apply (nth_error_flat_map_two _ _) with (x := (key, c_i)).
    - intros entry Hin. specialize (Hdefined entry Hin).
      unfold shift_angles in Hdefined. unfold term_factors.
      destruct (sdiv (snd entry) (of_int trotter_order));
        [reflexivity|contradiction].
    - exact Hith.
    - unfold term_factors. cbn [snd]. rewrite Hr. reflexivity. }
  destruct Hcircuits as [Heven Hodd]. destruct Hfactors as [Hfeven Hfodd].
  repeat split; assumption.
Qed.

(** C3 (amended): in [time_evolution_derivatives], when every division of
    the construction is defined (no per-repetition coefficient [c_i / r] is
    zero), the loops over the terms and the signs return, for every term
    [i] with coefficient [c_i], at positions [2i] (sign +1) and [2i + 1]
    (sign -1), the perturbed one-step circuits for the shifts
    [s * (pi / (4.0 * (c_i / r)))]: the concatenation over all terms, once
    each, of the per-term circuits, term [i] at angle [(time + shift) / r]
    and every other term at angle [time / r].  These lists are what the
    function returns for [trotter_order <= 1], and what it splices, slot by
    slot, into copies of the repeated circuit for [trotter_order > 1]. *)
Theorem perturbed_step_construction (hamiltonian : QubitOperator)
  (time angle : S) (trotter_order : Z) :
  sdiv time (of_int trotter_order) = Some angle ->
  (forall entry, In entry (terms hamiltonian) ->
                 shift_angles time trotter_order (snd entry) <> None) ->
  exists (perturbed : list Circuit) (recorded : list S),
    single_trotter_loop (get_operators hamiltonian) time trotter_order
    = Ok (perturbed, recorded)
    /\ ((trotter_order <= 1)%Z ->
        time_evolution_derivatives hamiltonian time "Trotter" trotter_order
        = Ok (perturbed, recorded))
    /\ (forall step_angle : S,
          (1 < trotter_order)%Z ->
          terms hamiltonian <> [] ->
          sdiv time (of_int 1) = Some step_angle ->
          time_evolution_derivatives hamiltonian time "Trotter" trotter_order
          = Ok (spliced_derivative_circuits
                  (one_step_circuit hamiltonian step_angle) perturbed
                  trotter_order,
                concat (repeat recorded (Z.to_nat trotter_order))))
    /\ length perturbed = 2 * length (terms hamiltonian)
    /\ forall (i : nat) (key : pauli_key) (c_i : S),
         nth_error (terms hamiltonian) i = Some (key, c_i) ->
         exists r_i quotient plus minus : S,
           sdiv c_i (of_int trotter_order) = Some r_i
           /\ sdiv pi (smul (of_float 4) r_i) = Some quotient
           /\ sdiv (sadd time (smul (of_float 1) quotient))
                   (of_int trotter_order) = Some plus
           /\ sdiv (sadd time (smul (of_float (-1)) quotient))
                   (of_int trotter_order) = Some minus
           /\ nth_error perturbed (2 * i)
              = Some (flat_map
                        (fun indexed =>
                           term_circuit (fst (snd indexed)) (snd (snd indexed))
                             (if fst indexed =? i then plus else angle))
                        (enumerate (terms hamiltonian)))
           /\ nth_error perturbed (2 * i + 1)
              = Some (flat_map
                        (fun indexed =>
                           term_circuit (fst (snd indexed)) (snd (snd indexed))
                             (if fst indexed =? i then minus else angle))
                        (enumerate (terms hamiltonian)))
           /\ nth_error recorded (2 * i) = Some (smul r_i (of_float 1))
           /\ nth_error recorded (2 * i + 1) = Some (smul r_i (of_float (-1))).
Proof.
  intros Hangle Hdefined.
  exists (step_derivative_circuits hamiltonian time trotter_order angle),
         (step_factors hamiltonian trotter_order).
  split; [exact (single_trotter_loop_spec _ _ _ _ Hangle Hdefined)|].
  split.
  { intros Hr.
    exact (time_evolution_derivatives_low_order _ _ _ _ Hr Hangle Hdefined). }
  split.
  { intros step_angle Hr Hne Hstep.
    exact (time_evolution_derivatives_higher_order _ _ _ _ _
             Hr Hne Hangle Hstep Hdefined). }
  split; [exact (length_step_derivative_circuits _ _ _ _ Hdefined)|].
  intros i key c_i Hith.
  exact (step_derivatives_of_term _ _ angle _ _ _ _ Hdefined Hith).
Qed.

(** C4 (amended): for a Hamiltonian with n terms, [trotter_order] r >= 1,
    every division of the construction defined (in particular no
    per-repetition coefficient [c_i / r] is zero) and, when r > 1, at least
    one term, [time_evolution_derivatives] returns 2n * r circuits and
    2n * r factors; the factors are, repeated r times, [(c_i / r) * (+1)]
    then [(c_i / r) * (-1)] for the terms in order, and for r = 1 the
    circuits are the perturbed one-step circuits in the same order.  For
    [c * Z_q] at r = 1, where [c / 1 = c], [c * 1.0 = c] and
    [c * (-1.0) = -c], the factors are [c], then [-c]. *)
Theorem derivatives_count_and_factors (hamiltonian : QubitOperator)
  (time angle : S) (trotter_order : Z) :
  (1 <= trotter_order)%Z ->
  ((1 < trotter_order)%Z ->
   terms hamiltonian <> [] /\ sdiv time (of_int 1) <> None) ->
  sdiv time (of_int trotter_order) = Some angle ->
  (forall entry, In entry (terms hamiltonian) ->
                 shift_angles time trotter_order (snd entry) <> None) ->
  (exists (circuits : list Circuit) (returned per_repetition : list S),
     time_evolution_derivatives hamiltonian time "Trotter" trotter_order
     = Ok (circuits, returned)
     /\ Z.of_nat (length circuits)
        = (2 * Z.of_nat (length (terms hamiltonian)) * trotter_order)%Z
     /\ Z.of_nat (length returned)
        = (2 * Z.of_nat (length (terms hamiltonian)) * trotter_order)%Z
     /\ Forall2 (fun entry r_i =>
                   sdiv (snd entry) (of_int trotter_order) = Some r_i)
                (terms hamiltonian) per_repetition
     /\ returned
        = concat (repeat
                    (flat_map (fun r_i => [smul r_i (of_float 1);
                                           smul r_i (of_float (-1))])
                              per_repetition)
                    (Z.to_nat trotter_order))
     /\ (trotter_order = 1%Z ->
         circuits = step_derivative_circuits hamiltonian time 1 angle))
  /\ forall (q : nat) (c : S),
       hamiltonian = single_term [(q, AxisZ)] c ->
       trotter_order = 1%Z ->
       sdiv c (of_int 1) = Some c ->
       smul c (of_float 1) = c ->
       smul c (of_float (-1)) = sneg c ->
       exists circuits : list Circuit,
         time_evolution_derivatives hamiltonian time "Trotter" trotter_order
         = Ok (circuits, [c; sneg c])
         /\ length circuits = 2.
Proof.
  intros Hr Hhigher Hangle Hdefined.
  pose proof (length_step_factors _ _ _ Hdefined) as Hlen_factors.
  pose proof (length_step_derivative_circuits _ _ angle _ Hdefined)
    as Hlen_circuits.
  destruct (step_factors_per_repetition _ _ _ Hdefined)
    as [per_repetition [Hper Hfactors]].
  split.
  - destruct (Z.eq_dec trotter_order 1) as [->|Hneq].
    + exists (step_derivative_circuits hamiltonian time 1 angle),
             (step_factors hamiltonian 1), per_repetition.
      rewrite (time_evolution_derivatives_order_one _ _ _ Hangle Hdefined).
      change (Z.to_nat 1) with 1. cbn [repeat concat].
      rewrite app_nil_r, Hlen_circuits, Hlen_factors.
      repeat split; try assumption; lia.
    + destruct Hhigher as [Hne Hstep]; [lia|].
      destruct (sdiv time (of_int 1)) as [step_angle|] eqn:Hstep_angle;
        [|contradiction].
      exists (spliced_derivative_circuits
                (one_step_circuit hamiltonian step_angle)
                (step_derivative_circuits hamiltonian time trotter_order angle)
                trotter_order),
             (concat (repeat (step_factors hamiltonian trotter_order)
                             (Z.to_nat trotter_order))),
             per_repetition.
      assert (Hlt : (1 < trotter_order)%Z) by lia.
      rewrite (time_evolution_derivatives_higher_order _ _ _ _ _
                 Hlt Hne Hangle Hstep_angle Hdefined).
      rewrite length_concat_repeat, Hlen_factors, <- Hfactors.
      unfold spliced_derivative_circuits.
      rewrite (flat_map_constant_length _ _ (2 * length (terms hamiltonian)))
        by (intros position _; rewrite length_map; exact Hlen_circuits).
      rewrite length_range.
      repeat split; try assumption; lia.
  - intros q c -> -> Hone Hplus Hminus.
    exists (step_derivative_circuits (single_term [(q, AxisZ)] c) time 1 angle).
    rewrite (time_evolution_derivatives_order_one _ _ _ Hangle Hdefined).
    split; [|exact Hlen_circuits].
    unfold step_factors, single_term, term_factors. cbn [terms flat_map snd].
    rewrite Hone, Hplus, Hminus. reflexivity.
Qed.

(** ** Size, support and layout of a term's circuit *)

Lemma length_basis_change (key : pauli_key) :
  length (flat_map basis_change key) = basis_changing_factors key.
Proof.
  unfold basis_changing_factors.
  induction key as [|[qubit term_type] key IH]; [reflexivity|].
  cbn [flat_map filter snd]. rewrite length_app, IH.
  destruct term_type; reflexivity.
Qed.

Lemma length_basis_reversal (key : pauli_key) :
  length (flat_map basis_reversal key) = basis_changing_factors key.
Proof.
  unfold basis_changing_factors.
  induction key as [|[qubit term_type] key IH]; [reflexivity|].
  cbn [flat_map filter snd]. rewrite length_app, IH.
  destruct term_type; reflexivity.
Qed.

Lemma length_term_circuit (key : pauli_key) (coefficient time : S) :
  length (term_circuit key coefficient time) = term_gate_count key.
Proof.
  destruct key as [|component key']; [reflexivity|].
  unfold term_circuit, term_gate_count, emission_order, cnot_staircase.
  rewrite !length_app, length_rev, !length_map, length_seq,
    length_basis_change, length_basis_reversal.
  cbn [length]. lia.
Qed.

Lemma last_qubit_in_key (key : pauli_key) :
  key <> [] -> In (last_qubit key) (map fst key).
Proof.
  intros Hne. unfold last_qubit.
  destruct (exists_last Hne) as [front [component ->]].
  rewrite map_app. cbn [map]. rewrite last_app_singleton.
  apply in_or_app. right. left. reflexivity.
Qed.

Lemma qubit_at_in_key (key : pauli_key) (i : nat) :
  i < length key -> In (qubit_at key i) (map fst key).
Proof.
  intros Hi. unfold qubit_at. apply nth_In. rewrite length_map. exact Hi.
Qed.

Lemma term_circuit_support (key : pauli_key) (coefficient time : S) :
  Forall (fun op => incl (operation_qubits op) (map fst key))
         (term_circuit key coefficient time).
Proof.
  destruct key as [|component key']; [constructor|].
  set (key := component :: key').
  assert (Hbasis : forall f,
             (forall c, f c = basis_change c \/ f c = basis_reversal c) ->
             Forall (fun op => incl (operation_qubits op) (map fst key))
                    (flat_map f key)).
  { intros f Hf. apply Forall_flat_map, Forall_forall. intros c Hc.
    assert (Hq : In (fst c) (map fst key)) by (apply in_map; exact Hc).
    destruct (Hf c) as [-> | ->];
      unfold basis_change, basis_reversal; destruct (snd c);
      try apply Forall_nil;
      (apply Forall_cons; [|apply Forall_nil]);
      intros q [<-|[]]; exact Hq. }
  assert (Hstairs : Forall (fun op => incl (operation_qubits op) (map fst key))
                           (cnot_staircase key)).
  { unfold cnot_staircase. apply Forall_map, Forall_forall. intros i Hi.
    apply in_seq in Hi. cbn [operation_qubits].
    intros q [<-|[<-|[]]]; apply qubit_at_in_key; lia. }
  unfold term_circuit, emission_order. fold key.
  apply Forall_app; split; [apply Hbasis; intros c; left; reflexivity|].
  apply Forall_app; split; [exact Hstairs|].
  apply Forall_app; split.
  - apply Forall_cons; [|apply Forall_nil].
    cbn [central_rotation operation_qubits].
    intros q [<-|[]]. apply last_qubit_in_key. discriminate.
  - apply Forall_app; split; [apply Forall_rev; exact Hstairs|].
    apply Hbasis. intros c. right. reflexivity.
Qed.

Lemma gate_layout_fixed (circuit : Circuit) :
  Forall (fun op => is_rz op = false) circuit ->
  gate_layout circuit = circuit /\ filter is_rz circuit = [].
Proof.
  unfold gate_layout.
  induction circuit as [|op circuit IH]; intros Hall; [split; reflexivity|].
  inversion Hall as [|? ? Hop Hrest]; subst.
  destruct (IH Hrest) as [Hlayout Hfilter].
  cbn [map filter]. rewrite Hop, Hlayout, Hfilter.
  destruct op; try discriminate; split; reflexivity.
Qed.

Lemma basis_gates_not_rz (key : pauli_key) :
  Forall (fun op => is_rz op = false) (flat_map basis_change key)
  /\ Forall (fun op => is_rz op = false) (flat_map basis_reversal key).
Proof.
  split; apply Forall_flat_map, Forall_forall; intros c _;
    unfold basis_change, basis_reversal; destruct (snd c);
    try apply Forall_nil;
    (apply Forall_cons; [reflexivity|apply Forall_nil]).
Qed.

Lemma cnot_staircase_not_rz (key : pauli_key) :
  Forall (fun op => is_rz op = false) (cnot_staircase key).
Proof.
  unfold cnot_staircase. apply Forall_map, Forall_forall.
  intros i _. reflexivity.
Qed.

(** The layout of a term's circuit does not depend on the time or on the
    coefficient, and a non-empty term has one RZ. *)
Lemma term_circuit_layout (key : pauli_key) (coefficient time : S) :
  gate_layout (term_circuit key coefficient time)
  = gate_layout (term_circuit key (of_int 0) (of_int 0))
  /\ length (filter is_rz (term_circuit key coefficient time))
     = match key with [] => 0 | _ :: _ => 1 end.
Proof.
  destruct key as [|component key']; [split; reflexivity|].
  unfold term_circuit. cbv beta iota.
  generalize (component :: key'). intros key.
  destruct (basis_gates_not_rz key) as [Hchange Hreversal].
  pose proof (cnot_staircase_not_rz key) as Hstairs.
  pose proof (Forall_rev Hstairs) as Hback.
  unfold emission_order. split.
  - unfold gate_layout. rewrite !map_app. reflexivity.
  - rewrite !filter_app.
    rewrite (proj2 (gate_layout_fixed _ Hchange)),
      (proj2 (gate_layout_fixed _ Hreversal)),
      (proj2 (gate_layout_fixed _ Hstairs)),
      (proj2 (gate_layout_fixed _ Hback)).
    reflexivity.
Qed.

(** X1: on a single-term operator with k factors, b of them X or Y,
    [time_evolution_for_term] returns 2b + 2(k-1) + 1 gates, and no gate for
    the identity term. *)
Theorem time_evolution_for_term_gate_count (key : pauli_key)
  (coefficient time : S) :
  exists circuit : Circuit,
    time_evolution_for_term (single_term key coefficient) time = Ok circuit
    /\ length circuit = term_gate_count key
    /\ (key <> [] ->
        length circuit
        = 2 * basis_changing_factors key + 2 * (length key - 1) + 1).
Proof.
  exists (term_circuit key coefficient time).
  rewrite time_evolution_for_term_single, length_term_circuit.
  repeat split. intros Hne.
  destruct key; [contradiction|reflexivity].
Qed.

(** X2: [time_evolution_for_term] returns the empty circuit exactly for the
    identity term: every term with a factor gives at least its RZ gate. *)
Theorem time_evolution_for_term_empty_iff (key : pauli_key)
  (coefficient time : S) :
  time_evolution_for_term (single_term key coefficient) time = Ok []
  <-> key = [].
Proof.
  rewrite time_evolution_for_term_single. split.
  - intros Hrun. injection Hrun as Hrun.
    apply (f_equal (@length Operation)) in Hrun.
    unfold Circuit in Hrun. rewrite length_term_circuit in Hrun.
    destruct key; [reflexivity|]. cbn in Hrun. lia.
  - intros ->. reflexivity.
Qed.

(** X3: every gate [time_evolution_for_term] emits acts on qubits of the
    term only. *)
Theorem time_evolution_for_term_support (key : pauli_key)
  (coefficient time : S) :
  exists circuit : Circuit,
    time_evolution_for_term (single_term key coefficient) time = Ok circuit
    /\ forall op qubit,
         In op circuit -> In qubit (operation_qubits op) ->
         exists term_type, In (qubit, term_type) key.
Proof.
  exists (term_circuit key coefficient time).
  rewrite time_evolution_for_term_single. split; [reflexivity|].
  intros op qubit Hop Hqubit.
  pose proof (term_circuit_support key coefficient time) as Hsupport.
  rewrite Forall_forall in Hsupport.
  specialize (Hsupport op Hop qubit Hqubit).
  apply in_map_iff in Hsupport.
  destruct Hsupport as [[q term_type] [Hq Hin]]. cbn [fst] in Hq. subst q.
  exists term_type. exact Hin.
Qed.

(** X4: the time and the coefficient enter the circuit of a term through
    the angle of its RZ only: two runs on the same Pauli string give the
    same gates on the same qubits, RZ angles apart, and a term with a
    factor has exactly one RZ. *)
Theorem time_evolution_for_term_time_only_in_rz (key : pauli_key)
  (coefficient1 time1 coefficient2 time2 : S) :
  exists circuit1 circuit2 : Circuit,
    time_evolution_for_term (single_term key coefficient1) time1 = Ok circuit1
    /\ time_evolution_for_term (single_term key coefficient2) time2
       = Ok circuit2
    /\ gate_layout circuit1 = gate_layout circuit2
    /\ length (filter is_rz circuit1) = match key with [] => 0 | _ => 1 end.
Proof.
  exists (term_circuit key coefficient1 time1),
         (term_circuit key coefficient2 time2).
  rewrite !time_evolution_for_term_single.
  repeat split.
  - rewrite (proj1 (term_circuit_layout key coefficient1 time1)),
      (proj1 (term_circuit_layout key coefficient2 time2)). reflexivity.
  - apply term_circuit_layout.
Qed.

(** ** Outcomes and size of time_evolution *)

Lemma concat_repeat_nil {A : Type} (n : nat) :
  concat (repeat (@nil A) n) = [].
Proof. induction n as [|n IH]; [reflexivity|exact IH]. Qed.

(** A non-positive [trotter_order] leaves the generator empty. *)
Lemma time_evolution_without_repetitions (hamiltonian : QubitOperator)
  (time : S) (trotter_order : Z) :
  (trotter_order <= 0)%Z ->
  time_evolution hamiltonian time "Trotter" trotter_order = Raise TypeError.
Proof.
  intros Hr. unfold time_evolution, range.
  cbn [String.eqb Ascii.eqb Bool.eqb negb].
  replace (Z.to_nat trotter_order) with 0 by lia. reflexivity.
Qed.

(** With a term and a repetition, the first element of the generator is
    computed, and its division may raise. *)
Lemma time_evolution_division_raises (hamiltonian : QubitOperator)
  (time : S) (trotter_order : Z) :
  terms hamiltonian <> [] ->
  (0 < trotter_order)%Z ->
  sdiv time (of_int trotter_order) = None ->
  time_evolution hamiltonian time "Trotter" trotter_order
  = Raise ZeroDivisionError.
Proof.
  intros Hne Hr Hdiv. unfold time_evolution, range, get_operators.
  cbn [String.eqb Ascii.eqb Bool.eqb negb].
  destruct hamiltonian as [[|entry entries]]; [contradiction|].
  destruct (Z.to_nat trotter_order) as [|n] eqn:En; [lia|].
  cbn [terms seq map flat_map app generate].
  unfold divide at 1. rewrite Hdiv. reflexivity.
Qed.

Lemma length_one_step_circuit (hamiltonian : QubitOperator) (angle : S) :
  length (one_step_circuit hamiltonian angle)
  = list_sum (map (fun entry => term_gate_count (fst entry))
                  (terms hamiltonian)).
Proof.
  unfold one_step_circuit. rewrite length_flat_map, map_ext with
    (g := fun entry => term_gate_count (fst entry)); [reflexivity|].
  intros entry. apply length_term_circuit.
Qed.

(** X5: under method "Trotter", [time_evolution] raises [TypeError] when
    the Hamiltonian has no term or [trotter_order <= 0] (nothing is
    generated, no division is attempted); otherwise it raises
    [ZeroDivisionError] if [time / trotter_order] does, and else returns
    [trotter_order] copies of the one-step circuit at that angle. *)
Theorem time_evolution_outcome (hamiltonian : QubitOperator) (time : S)
  (trotter_order : Z) :
  (terms hamiltonian = [] \/ (trotter_order <= 0)%Z ->
   time_evolution hamiltonian time "Trotter" trotter_order = Raise TypeError)
  /\ (terms hamiltonian <> [] /\ (0 < trotter_order)%Z ->
      match sdiv time (of_int trotter_order) with
      | None =>
          time_evolution hamiltonian time "Trotter" trotter_order
          = Raise ZeroDivisionError
      | Some angle =>
          time_evolution hamiltonian time "Trotter" trotter_order
          = Ok (concat (repeat (one_step_circuit hamiltonian angle)
                               (Z.to_nat trotter_order)))
      end).
Proof.
  split.
  - intros [Hempty|Hr].
    + apply time_evolution_without_terms. exact Hempty.
    + apply time_evolution_without_repetitions. exact Hr.
  - intros [Hne Hr].
    destruct (sdiv time (of_int trotter_order)) as [angle|] eqn:Hdiv.
    + apply time_evolution_nonempty; assumption.
    + apply time_evolution_division_raises; assumption.
Qed.

(** X6: a Hamiltonian that has terms, all of them identity terms, gives
    the empty circuit (where a Hamiltonian without terms raises). *)
Theorem time_evolution_identity_terms (hamiltonian : QubitOperator)
  (time angle : S) (trotter_order : Z) :
  terms hamiltonian <> [] ->
  Forall (fun entry : pauli_key * S => fst entry = []) (terms hamiltonian) ->
  (0 < trotter_order)%Z ->
  sdiv time (of_int trotter_order) = Some angle ->
  time_evolution hamiltonian time "Trotter" trotter_order = Ok [].
Proof.
  intros Hne Hidentity Hr Hdiv.
  rewrite (time_evolution_nonempty _ _ _ _ Hne Hr Hdiv).
  assert (Hstep : one_step_circuit hamiltonian angle = []).
  { clear Hne Hdiv. unfold one_step_circuit.
    destruct hamiltonian as [entries]. cbn [terms] in *.
    induction entries as [|entry entries IH]; [reflexivity|].
    inversion Hidentity as [|? ? Hentry Hrest]; subst.
    destruct entry as [key coefficient]. cbn [fst] in Hentry. subst key.
    cbn [flat_map fst snd]. rewrite (IH Hrest). reflexivity. }
  rewrite Hstep. unfold Circuit. rewrite concat_repeat_nil. reflexivity.
Qed.

(** X7: at [trotter_order = 1] the circuit of a Hamiltonian whose terms are
    those of a first Hamiltonian followed by those of a second one is the
    circuit of the first followed by the circuit of the second. *)
Theorem time_evolution_concatenates_hamiltonians
  (first second : QubitOperator) (time angle : S) :
  terms first <> [] ->
  terms second <> [] ->
  sdiv time (of_int 1) = Some angle ->
  exists circuit1 circuit2 : Circuit,
    time_evolution first time "Trotter" 1 = Ok circuit1
    /\ time_evolution second time "Trotter" 1 = Ok circuit2
    /\ time_evolution (mkQubitOperator (terms first ++ terms second)) time
         "Trotter" 1
       = Ok (circuit1 ++ circuit2).
Proof.
  intros Hfirst Hsecond Hdiv.
  exists (one_step_circuit first angle), (one_step_circuit second angle).
  assert (Hboth : terms (mkQubitOperator (terms first ++ terms second)) <> []).
  { cbn [terms]. destruct (terms first); [contradiction|discriminate]. }
  rewrite (time_evolution_nonempty first time angle 1 Hfirst Z.lt_0_1 Hdiv),
    (time_evolution_nonempty second time angle 1 Hsecond Z.lt_0_1 Hdiv),
    (time_evolution_nonempty _ time angle 1 Hboth Z.lt_0_1 Hdiv).
  change (Z.to_nat 1) with 1. cbn [repeat concat]. rewrite !app_nil_r.
  repeat split.
  unfold one_step_circuit. cbn [terms]. rewrite flat_map_app. reflexivity.
Qed.

(** X8: the circuit [time_evolution] returns has [trotter_order] times the
    gates of its terms: for each term with k factors, b of them X or Y,
    2b + 2(k-1) + 1 gates, and none for an identity term. *)
Theorem time_evolution_gate_count (hamiltonian : QubitOperator)
  (time angle : S) (trotter_order : Z) :
  terms hamiltonian <> [] ->
  (0 < trotter_order)%Z ->
  sdiv time (of_int trotter_order) = Some angle ->
  exists circuit : Circuit,
    time_evolution hamiltonian time "Trotter" trotter_order = Ok circuit
    /\ length circuit
       = Z.to_nat trotter_order
         * list_sum (map (fun entry => term_gate_count (fst entry))
                         (terms hamiltonian)).
Proof.
  intros Hne Hr Hdiv.
  eexists. split; [apply time_evolution_nonempty; eassumption|].
  unfold Circuit.
  rewrite length_concat_repeat.
  change (list Operation) with Circuit.
  rewrite length_one_step_circuit. reflexivity.
Qed.

(** ** Size of a spliced sequence *)

(** X9: for a slot [0 <= position < length] the sequence
    [_generate_circuit_sequence] returns has the gates of [length - 1]
    copies of the repeated circuit and of one different circuit. *)
Theorem generate_circuit_sequence_length
  (repeated_circuit different_circuit : Circuit) (length position : Z) :
  (0 <= position < length)%Z ->
  exists circuit : Circuit,
    _generate_circuit_sequence repeated_circuit different_circuit
      length position = Ok circuit
    /\ Z.of_nat (Datatypes.length circuit)
       = ((length - 1) * Z.of_nat (Datatypes.length repeated_circuit)
          + Z.of_nat (Datatypes.length different_circuit))%Z.
Proof.
  intros Hrange. eexists.
  split; [apply generate_circuit_sequence_in_range; exact Hrange|].
  unfold Circuit in *. rewrite !length_app, !length_concat_repeat. nia.
Qed.

(** X10: splicing a circuit into copies of itself gives [length] copies
    of it, whatever the slot below [length]. *)
Theorem generate_circuit_sequence_same_circuit
  (circuit : Circuit) (length position : Z) :
  (position < length)%Z ->
  _generate_circuit_sequence circuit circuit length position
  = Ok (concat (repeat circuit (Z.to_nat length))).
Proof.
  intros Hlt. rewrite generate_circuit_sequence_below by exact Hlt.
  unfold spliced, Circuit. f_equal.
  rewrite <- length_range, <- (flat_map_constant circuit (range length)).
  apply flat_map_ext. intros i. unfold splice_instance.
  destruct (Z.eq_dec i position); reflexivity.
Qed.

(** ** Errors of time_evolution_derivatives *)

Lemma bind_value_error_free {A B : Type} (m : result A) (k : A -> result B) :
  value_error_free m ->
  (forall a, m = Ok a -> value_error_free (k a)) ->
  value_error_free (bind m k).
Proof.
  intros Hm Hk. destruct m as [a|e]; cbn [bind].
  - apply Hk. reflexivity.
  - intros msg Heq. injection Heq as ->. exact (Hm msg eq_refl).
Qed.

Lemma for_each_value_error_free {A St : Type} (xs : list A)
  (body : A -> St -> result St) :
  (forall x st, In x xs -> value_error_free (body x st)) ->
  forall st, value_error_free (for_each xs body st).
Proof.
  induction xs as [|x xs IH]; intros Hbody st.
  - intros msg. discriminate.
  - cbn [for_each]. apply bind_value_error_free.
    + apply Hbody. left. reflexivity.
    + intros st' _. apply IH. intros y st0 Hy. apply Hbody. right. exact Hy.
Qed.

Lemma divide_value_error_free (x y : S) : value_error_free (divide x y).
Proof. unfold divide. intros msg. destruct (sdiv x y); discriminate. Qed.

Lemma ok_value_error_free {A : Type} (a : A) : value_error_free (Ok a).
Proof. intros msg. discriminate. Qed.

Lemma time_evolution_trotter_value_error_free (hamiltonian : QubitOperator)
  (time : S) (trotter_order : Z) :
  value_error_free (time_evolution hamiltonian time "Trotter" trotter_order).
Proof.
  intros msg.
  destruct (terms hamiltonian) as [|entry entries] eqn:Hterms.
  - rewrite time_evolution_without_terms by exact Hterms. discriminate.
  - assert (Hne : terms hamiltonian <> []) by (rewrite Hterms; discriminate).
    destruct (Z_le_gt_dec trotter_order 0) as [Hr|Hr].
    + rewrite time_evolution_without_repetitions by exact Hr. discriminate.
    + assert (Hpos : (0 < trotter_order)%Z) by lia.
      destruct (sdiv time (of_int trotter_order)) as [angle|] eqn:Hdiv.
      * rewrite (time_evolution_nonempty _ _ _ _ Hne Hpos Hdiv).
        discriminate.
      * rewrite time_evolution_division_raises by (assumption || lia).
        discriminate.
Qed.

Lemma derivative_loop_body_value_error_free (hamiltonian : QubitOperator)
  (time : S) (trotter_order : Z) (i : nat) (term_1 : QubitOperator)
  (factor : S) (st : list Circuit * list S) :
  value_error_free
    (derivative_loop_body (get_operators hamiltonian) time trotter_order i
       term_1 factor st).
Proof.
  destruct st as [circuits recorded]. unfold derivative_loop_body.
  apply bind_value_error_free.
  { intros msg. apply per_repetition_coefficient_qubit_no_value_error. }
  intros r_i _. apply bind_value_error_free;
    [apply divide_value_error_free|].
  intros quotient _. apply bind_value_error_free;
    [|intros; apply ok_value_error_free].
  apply for_each_value_error_free. intros [j term_2] output Hin.
  apply bind_value_error_free.
  { destruct (i =? j); apply divide_value_error_free. }
  intros angle _. apply bind_value_error_free;
    [|intros; apply ok_value_error_free].
  unfold enumerate in Hin. apply in_combine_r in Hin.
  rewrite (time_evolution_for_term_get_operators hamiltonian) by exact Hin.
  apply ok_value_error_free.
Qed.

Lemma in_range (n i : Z) : In i (range n) -> (0 <= i < n)%Z.
Proof.
  unfold range. intros Hin. apply in_map_iff in Hin.
  destruct Hin as [k [<- Hk]]. apply in_seq in Hk. lia.
Qed.

Lemma time_evolution_derivatives_trotter_value_error_free
  (hamiltonian : QubitOperator) (time : S) (trotter_order : Z) :
  value_error_free
    (time_evolution_derivatives hamiltonian time "Trotter" trotter_order).
Proof.
  unfold time_evolution_derivatives.
  cbn [String.eqb Ascii.eqb Bool.eqb negb].
  apply bind_value_error_free.
  { unfold single_trotter_loop. apply for_each_value_error_free.
    intros [i term_1] st _. apply for_each_value_error_free.
    intros factor st' _. apply derivative_loop_body_value_error_free. }
  intros [circuits recorded] _.
  destruct (trotter_order >? 1)%Z; [|apply ok_value_error_free].
  apply bind_value_error_free;
    [apply time_evolution_trotter_value_error_free|].
  intros repeated_circuit _. apply for_each_value_error_free.
  intros position st Hposition. apply in_range in Hposition.
  apply for_each_value_error_free.
  intros [factor different_circuit] [output_circuits final_factors] _.
  rewrite generate_circuit_sequence_below by lia.
  apply ok_value_error_free.
Qed.

(** X11: the only [ValueError] of [time_evolution] and of
    [time_evolution_derivatives] is the unsupported method: under
    "Trotter" neither raises a [ValueError], so the "Term coefficients need
    to be numerical" error is never raised for a [QubitOperator]
    Hamiltonian, and the splice position is never out of range. *)
Theorem value_error_iff_unsupported_method (hamiltonian : QubitOperator)
  (time : S) (method : string) (trotter_order : Z) :
  ((exists msg, time_evolution hamiltonian time method trotter_order
                = Raise (ValueError msg))
   <-> method <> "Trotter")
  /\ ((exists msg,
         time_evolution_derivatives hamiltonian time method trotter_order
         = Raise (ValueError msg))
      <-> method <> "Trotter").
Proof.
  destruct (string_dec method "Trotter") as [->|Hmethod].
  - split; split.
    + intros [msg Hrun].
      exfalso. exact (time_evolution_trotter_value_error_free _ _ _ _ Hrun).
    + intros Hne. contradiction.
    + intros [msg Hrun]. exfalso.
      exact (time_evolution_derivatives_trotter_value_error_free _ _ _ _ Hrun).
    + intros Hne. contradiction.
  - pose proof Hmethod as Heqb. apply String.eqb_neq in Heqb.
    unfold time_evolution, time_evolution_derivatives. rewrite Heqb.
    split; (split; [intros _; exact Hmethod|intros _; eexists; reflexivity]).
Qed.

(** X13: on a Hamiltonian without terms [time_evolution_derivatives]
    returns two empty lists for [trotter_order <= 1] and raises
    [TypeError] for [trotter_order > 1], where it asks [time_evolution] for
    the repeated circuit. *)
Theorem time_evolution_derivatives_empty_hamiltonian (time : S)
  (trotter_order : Z) :
  ((trotter_order <= 1)%Z ->
   time_evolution_derivatives (mkQubitOperator []) time "Trotter" trotter_order
   = Ok ([], []))
  /\ ((1 < trotter_order)%Z ->
      time_evolution_derivatives (mkQubitOperator []) time "Trotter"
        trotter_order
      = Raise TypeError).
Proof.
  split.
  - intros Hr. unfold time_evolution_derivatives.
    cbn [String.eqb Ascii.eqb Bool.eqb negb].
    unfold single_trotter_loop, get_operators, enumerate.
    cbn [terms map length seq combine for_each bind].
    replace (trotter_order >? 1)%Z with false by (symmetry; lia).
    reflexivity.
  - apply time_evolution_derivatives_without_terms.
Qed.

(** ** Shape of the result of time_evolution_derivatives *)

(** A loop whose every successful step adds [k] to a measure of the
    state. *)
Lemma for_each_measure {A St : Type} (measure : St -> nat) (k : nat)
  (xs : list A) (body : A -> St -> result St) :
  (forall x st st', body x st = Ok st' -> measure st' = measure st + k) ->
  forall st st',
    for_each xs body st = Ok st' ->
    measure st' = measure st + k * length xs.
Proof.
  intros Hstep. induction xs as [|x xs IH]; intros st st' Hrun.
  - injection Hrun as <-. cbn [length]. lia.
  - cbn [for_each] in Hrun. destruct (body x st) as [st1|e] eqn:Hbody;
      cbn [bind] in Hrun; [|discriminate].
    rewrite (IH _ _ Hrun), (Hstep _ _ _ Hbody). cbn [length]. lia.
Qed.

Lemma derivative_loop_body_grows (term_ops : list QubitOperator) (time : S)
  (trotter_order : Z) (i : nat) (term_1 : QubitOperator) (factor : S)
  (st st' : list Circuit * list S) :
  derivative_loop_body term_ops time trotter_order i term_1 factor st = Ok st' ->
  length (fst st') = length (fst st) + 1
  /\ length (snd st') = length (snd st) + 1.
Proof.
  destruct st as [circuits recorded]. unfold derivative_loop_body.
  destruct (per_repetition_coefficient (QubitTerm term_1) trotter_order)
    as [r_i|e]; cbn [bind]; [|discriminate].
  destruct (divide pi (smul (of_float 4) r_i)) as [quotient|e];
    cbn [bind]; [|discriminate].
  match goal with
  | |- context [for_each ?xs ?body ?init] =>
      destruct (for_each xs body init) as [output|e]
  end; cbn [bind]; [|discriminate].
  intros Hrun. injection Hrun as <-. cbn [fst snd].
  rewrite !length_app. cbn [length]. split; reflexivity.
Qed.

Lemma single_trotter_loop_grows (term_ops : list QubitOperator) (time : S)
  (trotter_order : Z) (circuits : list Circuit) (recorded : list S) :
  single_trotter_loop term_ops time trotter_order = Ok (circuits, recorded) ->
  length circuits = 2 * length term_ops
  /\ length recorded = 2 * length term_ops.
Proof.
  unfold single_trotter_loop. intros Hrun.
  assert (Hlen : length (enumerate term_ops) = length term_ops)
    by (unfold enumerate; rewrite length_combine, length_seq, Nat.min_id;
        reflexivity).
  split.
  - apply (for_each_measure (fun st => length (fst st)) 2) in Hrun.
    + cbn [fst length] in Hrun. rewrite Hrun, Hlen. reflexivity.
    + intros [i term_1] st st' Hinner.
      apply (for_each_measure (fun st => length (fst st)) 1) in Hinner.
      * rewrite Hinner. reflexivity.
      * intros factor st0 st1 Hbody.
        apply derivative_loop_body_grows in Hbody. apply Hbody.
  - apply (for_each_measure (fun st => length (snd st)) 2) in Hrun.
    + cbn [snd length] in Hrun. rewrite Hrun, Hlen. reflexivity.
    + intros [i term_1] st st' Hinner.
      apply (for_each_measure (fun st => length (snd st)) 1) in Hinner.
      * rewrite Hinner. reflexivity.
      * intros factor st0 st1 Hbody.
        apply derivative_loop_body_grows in Hbody. apply Hbody.
Qed.

Lemma splice_loops_grow (repeated_circuit : Circuit) (trotter_order : Z)
  (pairs : list (S * Circuit)) (positions : list Z)
  (circuits : list Circuit) (returned : list S) :
  for_each positions
    (fun position st =>
       for_each pairs
         (fun '(factor, different_circuit) '(output_circuits, final_factors) =>
            circuit <- _generate_circuit_sequence repeated_circuit
                         different_circuit trotter_order position ;;
            Ok (output_circuits ++ [circuit], final_factors ++ [factor]))
         st)
    ([], [])
  = Ok (circuits, returned) ->
  length circuits = length pairs * length positions
  /\ length returned = length pairs * length positions.
Proof.
  intros Hrun.
  assert (Hinner : forall position (project : list Circuit * list S -> nat),
             (project = (fun st => length (fst st))
              \/ project = (fun st => length (snd st))) ->
             forall pair st st',
               (let '(factor, different_circuit) := pair in
                fun '(output_circuits, final_factors) =>
                  circuit <- _generate_circuit_sequence repeated_circuit
                               different_circuit trotter_order position ;;
                  Ok (output_circuits ++ [circuit], final_factors ++ [factor]))
                 st = Ok st' ->
               project st' = project st + 1).
  { intros position project Hproject [factor different_circuit]
      [output_circuits final_factors] st'.
    destruct (_generate_circuit_sequence repeated_circuit different_circuit
                trotter_order position) as [circuit|e];
      cbn [bind]; [|discriminate].
    intros Hstep. injection Hstep as <-.
    destruct Hproject as [-> | ->]; cbn [fst snd];
      rewrite length_app; reflexivity. }
  split.
  - apply (for_each_measure (fun st => length (fst st)) (length pairs))
      in Hrun.
    + exact Hrun.
    + intros position st st' Hpairs.
      apply (for_each_measure (fun st => length (fst st)) 1) in Hpairs.
      * rewrite Hpairs. lia.
      * apply (Hinner position). left. reflexivity.
  - apply (for_each_measure (fun st => length (snd st)) (length pairs))
      in Hrun.
    + exact Hrun.
    + intros position st st' Hpairs.
      apply (for_each_measure (fun st => length (snd st)) 1) in Hpairs.
      * rewrite Hpairs. lia.
      * apply (Hinner position). right. reflexivity.
Qed.

(** X12: whenever [time_evolution_derivatives] returns, its two lists have
    the same length, 2n for [trotter_order <= 1] and 2n * trotter_order
    above, n being the number of terms. *)
Theorem time_evolution_derivatives_aligned (hamiltonian : QubitOperator)
  (time : S) (method : string) (trotter_order : Z)
  (circuits : list Circuit) (returned : list S) :
  time_evolution_derivatives hamiltonian time method trotter_order
  = Ok (circuits, returned) ->
  length circuits = length returned
  /\ Z.of_nat (length circuits)
     = (2 * Z.of_nat (length (terms hamiltonian)) * Z.max 1 trotter_order)%Z.
Proof.
  unfold time_evolution_derivatives.
  destruct (negb (method =? "Trotter")%string); [discriminate|].
  destruct (single_trotter_loop (get_operators hamiltonian) time trotter_order)
    as [[perturbed recorded]|e] eqn:Hloop; cbn [bind]; [|discriminate].
  apply single_trotter_loop_grows in Hloop.
  unfold get_operators in Hloop. rewrite length_map in Hloop.
  destruct Hloop as [Hperturbed Hrecorded].
  destruct (trotter_order >? 1)%Z eqn:Hr.
  - destruct (time_evolution hamiltonian time "Trotter" 1)
      as [repeated_circuit|e]; cbn [bind]; [|discriminate].
    intros Hrun. apply splice_loops_grow in Hrun.
    rewrite length_combine, length_range, Hperturbed, Hrecorded, Nat.min_id
      in Hrun.
    destruct Hrun as [-> ->]. split; [reflexivity|]. lia.
  - intros Hrun. injection Hrun as <- <-. split; lia.
Qed.

(** The outer loops stop at the first term whose shift is undefined. *)
Lemma single_trotter_loop_raises (hamiltonian : QubitOperator)
  (time angle : S) (trotter_order : Z) (key : pauli_key)
  (coefficient r_i : S) (post : list (pauli_key * S)) :
  sdiv time (of_int trotter_order) = Some angle ->
  sdiv coefficient (of_int trotter_order) = Some r_i ->
  sdiv pi (smul (of_float 4) r_i) = None ->
  forall (pre : list (pauli_key * S)) (start : nat)
         (circuits : list Circuit) (recorded : list S),
    (forall entry, In entry pre ->
                   shift_angles time trotter_order (snd entry) <> None) ->
    for_each
      (combine (seq start (length (pre ++ (key, coefficient) :: post)))
               (map (fun entry => single_term (fst entry) (snd entry))
                    (pre ++ (key, coefficient) :: post)))
      (fun '(i, term_1) st =>
         for_each factors
           (fun factor st =>
              derivative_loop_body (get_operators hamiltonian) time
                trotter_order i term_1 factor st)
           st)
      (circuits, recorded)
    = Raise ZeroDivisionError.
Proof.
  intros Hangle Hr Hquotient pre.
  induction pre as [|[key0 coefficient0] pre IH];
    intros start circuits recorded Hdefined.
  - cbn [app length seq map combine for_each fst snd].
    unfold factors. cbn [for_each]. unfold derivative_loop_body.
    rewrite per_repetition_coefficient_qubit, (divide_some _ _ _ Hr).
    cbn [bind]. unfold divide. rewrite Hquotient. reflexivity.
  - cbn [app length seq map combine for_each fst snd].
    assert (Hhere : shift_angles time trotter_order coefficient0 <> None)
      by (apply (Hdefined (key0, coefficient0)); left; reflexivity).
    unfold shift_angles in Hhere.
    destruct (sdiv coefficient0 (of_int trotter_order)) as [r_0|] eqn:Hr0;
      [|contradiction].
    destruct (shifted_angle time trotter_order (of_float 1) r_0)
      as [plus|] eqn:Hplus; [|contradiction].
    destruct (shifted_angle time trotter_order (of_float (-1)) r_0)
      as [minus|] eqn:Hminus; [|contradiction].
    unfold factors at 1. cbn [for_each].
    rewrite (derivative_loop_body_spec _ _ _ _ _ _ _ _ _ _ _ _
               Hr0 Hplus Hangle).
    cbn [bind].
    rewrite (derivative_loop_body_spec _ _ _ _ _ _ _ _ _ _ _ _
               Hr0 Hminus Hangle).
    cbn [bind].
    apply IH. intros entry Hin. apply Hdefined. right. exact Hin.
Qed.

(** X14: if the terms before some term have their shifts defined and that
    term's per-repetition coefficient [r = c / trotter_order] makes
    [pi / (4.0 * r)] raise (a zero coefficient), then
    [time_evolution_derivatives] raises [ZeroDivisionError]: no circuit of
    the earlier terms is returned. *)
Theorem time_evolution_derivatives_zero_division
  (hamiltonian : QubitOperator) (time angle : S) (trotter_order : Z)
  (pre post : list (pauli_key * S)) (key : pauli_key) (coefficient r_i : S) :
  terms hamiltonian = pre ++ (key, coefficient) :: post ->
  (forall entry, In entry pre ->
                 shift_angles time trotter_order (snd entry) <> None) ->
  sdiv time (of_int trotter_order) = Some angle ->
  sdiv coefficient (of_int trotter_order) = Some r_i ->
  sdiv pi (smul (of_float 4) r_i) = None ->
  time_evolution_derivatives hamiltonian time "Trotter" trotter_order
  = Raise ZeroDivisionError.
Proof.
  intros Hterms Hdefined Hangle Hr Hquotient.
  unfold time_evolution_derivatives.
  cbn [String.eqb Ascii.eqb Bool.eqb negb].
  unfold single_trotter_loop, enumerate, get_operators at 1 2.
  rewrite length_map, Hterms.
  rewrite (single_trotter_loop_raises hamiltonian time angle trotter_order
             key coefficient r_i post Hangle Hr Hquotient pre 0 [] []
             Hdefined).
  reflexivity.
Qed.

(** ** The circuits returned for a higher Trotter order *)

Lemma spliced_closed_form (repeated_circuit different_circuit : Circuit)
  (length position : Z) :
  (0 <= position < length)%Z ->
  spliced repeated_circuit different_circuit length position
  = concat (repeat repeated_circuit (Z.to_nat position))
      ++ different_circuit
      ++ concat (repeat repeated_circuit (Z.to_nat (length - position - 1))).
Proof.
  intros Hrange.
  pose proof (generate_circuit_sequence_below repeated_circuit
                different_circuit length position ltac:(lia)) as Hbelow.
  rewrite (generate_circuit_sequence_in_range _ _ _ _ Hrange) in Hbelow.
  injection Hbelow as Hbelow. symmetry. exact Hbelow.
Qed.

Lemma flat_map_ext_in {A B : Type} (f g : A -> list B) (xs : list A) :
  (forall x, In x xs -> f x = g x) -> flat_map f xs = flat_map g xs.
Proof.
  induction xs as [|x xs IH]; intros Hfg; [reflexivity|].
  cbn [flat_map]. rewrite (Hfg x (or_introl eq_refl)).
  rewrite IH by (intros y Hy; apply Hfg; right; exact Hy). reflexivity.
Qed.

Lemma flat_map_over_map {A B C : Type} (f : B -> list C) (g : A -> B)
  (xs : list A) :
  flat_map f (map g xs) = flat_map (fun x => f (g x)) xs.
Proof.
  induction xs as [|x xs IH]; [reflexivity|].
  cbn [map flat_map]. rewrite IH. reflexivity.
Qed.

(** X15: for [trotter_order] r > 1 the circuits returned are, for each slot
    p = 0..r-1 in turn and each perturbed one-step circuit D in
    term-then-sign order, p copies of R, then D, then r-p-1 copies of R,
    where R is the circuit that [time_evolution] returns for the whole time
    at [trotter_order = 1]; the factors are the recorded ones, r times. *)
Theorem time_evolution_derivatives_slots (hamiltonian : QubitOperator)
  (time angle step_angle : S) (trotter_order : Z) :
  (1 < trotter_order)%Z ->
  terms hamiltonian <> [] ->
  sdiv time (of_int trotter_order) = Some angle ->
  sdiv time (of_int 1) = Some step_angle ->
  (forall entry, In entry (terms hamiltonian) ->
                 shift_angles time trotter_order (snd entry) <> None) ->
  exists repeated_circuit : Circuit,
    time_evolution hamiltonian time "Trotter" 1 = Ok repeated_circuit
    /\ time_evolution_derivatives hamiltonian time "Trotter" trotter_order
       = Ok (flat_map
               (fun slot =>
                  map (fun different_circuit =>
                         concat (repeat repeated_circuit slot)
                           ++ different_circuit
                           ++ concat (repeat repeated_circuit
                                        (Z.to_nat trotter_order - slot - 1)))
                      (step_derivative_circuits hamiltonian time
                         trotter_order angle))
               (seq 0 (Z.to_nat trotter_order)),
             concat (repeat (step_factors hamiltonian trotter_order)
                            (Z.to_nat trotter_order))).
Proof.
  intros Hr Hne Hangle Hstep Hdefined.
  exists (one_step_circuit hamiltonian step_angle). split.
  - rewrite (time_evolution_nonempty hamiltonian time step_angle 1 Hne
               Z.lt_0_1 Hstep).
    change (Z.to_nat 1) with 1. cbn [repeat concat]. rewrite app_nil_r.
    reflexivity.
  - rewrite (time_evolution_derivatives_higher_order _ _ _ _ _
               Hr Hne Hangle Hstep Hdefined).
    do 2 f_equal. unfold spliced_derivative_circuits, range.
    rewrite flat_map_over_map. apply flat_map_ext_in.
    intros slot Hslot. apply in_seq in Hslot. apply map_ext.
    intros different_circuit.
    rewrite spliced_closed_form by lia.
    rewrite Nat2Z.id.
    replace (Z.to_nat (trotter_order - Z.of_nat slot - 1))
      with (Z.to_nat trotter_order - slot - 1) by lia.
    reflexivity.
Qed.

(** ** Layout of the derivative circuits *)

Lemma gate_layout_concat_repeat (circuit : Circuit) (n : nat) :
  gate_layout (concat (repeat circuit n))
  = concat (repeat (gate_layout circuit) n).
Proof.
  unfold gate_layout. induction n as [|n IH]; [reflexivity|].
  cbn [repeat concat]. rewrite map_app, IH. reflexivity.
Qed.

(** The layout of one step, with every term at an angle of its own. *)
Lemma gate_layout_step_from (angle : S) (angle_of : nat -> S)
  (entries : list (pauli_key * S)) (start : nat) :
  gate_layout
    (flat_map (fun indexed =>
                 term_circuit (fst (snd indexed)) (snd (snd indexed))
                   (angle_of (fst indexed)))
              (combine (seq start (length entries)) entries))
  = gate_layout
      (flat_map (fun entry => term_circuit (fst entry) (snd entry) angle)
                entries).
Proof.
  unfold gate_layout. revert start.
  induction entries as [|[key coefficient] entries IH]; intros start;
    [reflexivity|].
  cbn [length seq combine flat_map fst snd]. rewrite !map_app, IH.
  f_equal.
  pose proof (proj1 (term_circuit_layout key coefficient (angle_of start)))
    as Hone.
  pose proof (proj1 (term_circuit_layout key coefficient angle)) as Htwo.
  unfold gate_layout in Hone, Htwo. rewrite Hone, Htwo. reflexivity.
Qed.

Lemma gate_layout_perturbed_step (hamiltonian : QubitOperator) (i : nat)
  (shifted angle reference : S) :
  gate_layout (perturbed_step hamiltonian i shifted angle)
  = gate_layout (one_step_circuit hamiltonian reference).
Proof.
  unfold perturbed_step, one_step_circuit, enumerate.
  apply (gate_layout_step_from reference
           (fun j => if j =? i then shifted else angle)).
Qed.

Lemma gate_layout_one_step (hamiltonian : QubitOperator)
  (angle reference : S) :
  gate_layout (one_step_circuit hamiltonian angle)
  = gate_layout (one_step_circuit hamiltonian reference).
Proof.
  rewrite <- (gate_layout_perturbed_step hamiltonian 0 angle angle reference).
  unfold perturbed_step, one_step_circuit, enumerate. symmetry.
  rewrite (gate_layout_step_from angle
             (fun j => if j =? 0 then angle else angle)).
  reflexivity.
Qed.

Lemma in_step_derivative_circuits (hamiltonian : QubitOperator)
  (time angle : S) (trotter_order : Z) (circuit : Circuit) :
  In circuit (step_derivative_circuits hamiltonian time trotter_order angle) ->
  exists i shifted, circuit = perturbed_step hamiltonian i shifted angle.
Proof.
  unfold step_derivative_circuits. intros Hin. apply in_flat_map in Hin.
  destruct Hin as [[i entry] [_ Hin]]. cbn [fst snd] in Hin.
  unfold term_derivative_circuits in Hin.
  destruct (shift_angles time trotter_order (snd entry))
    as [[[r_i plus] minus]|]; [|contradiction].
  destruct Hin as [<-|[<-|[]]]; eexists; eexists; reflexivity.
Qed.

Lemma concat_repeat_split {A : Type} (xs : list A) (before after : nat) :
  concat (repeat xs before) ++ xs ++ concat (repeat xs after)
  = concat (repeat xs (before + 1 + after)).
Proof.
  rewrite !repeat_app, !concat_app. cbn [repeat concat].
  rewrite app_nil_r, <- app_assoc. reflexivity.
Qed.

(** X16: every circuit [time_evolution_derivatives] returns has the gates
    of the circuit [time_evolution] returns for the same Hamiltonian, time
    and [trotter_order], on the same qubits and in the same order: they
    differ in RZ angles only. *)
Theorem derivative_circuits_share_layout (hamiltonian : QubitOperator)
  (time angle : S) (trotter_order : Z) :
  (1 <= trotter_order)%Z ->
  terms hamiltonian <> [] ->
  sdiv time (of_int trotter_order) = Some angle ->
  ((1 < trotter_order)%Z -> sdiv time (of_int 1) <> None) ->
  (forall entry, In entry (terms hamiltonian) ->
                 shift_angles time trotter_order (snd entry) <> None) ->
  exists (evolution : Circuit) (circuits : list Circuit) (returned : list S),
    time_evolution hamiltonian time "Trotter" trotter_order = Ok evolution
    /\ time_evolution_derivatives hamiltonian time "Trotter" trotter_order
       = Ok (circuits, returned)
    /\ Forall (fun circuit => gate_layout circuit = gate_layout evolution)
              circuits.
Proof.
  intros Hr Hne Hangle Hhigher Hdefined.
  assert (Hpos : (0 < trotter_order)%Z) by lia.
  destruct (Z.eq_dec trotter_order 1) as [->|Hneq].
  - eexists. eexists. eexists.
    split; [exact (time_evolution_nonempty _ _ _ _ Hne Hpos Hangle)|].
    rewrite gate_layout_concat_repeat.
    split;
      [exact (time_evolution_derivatives_order_one _ _ _ Hangle Hdefined)|].
    apply Forall_forall. intros circuit Hin.
    apply in_step_derivative_circuits in Hin.
    destruct Hin as [i [shifted ->]].
    rewrite (gate_layout_perturbed_step _ _ _ _ angle).
    change (Z.to_nat 1) with 1. cbn [repeat concat]. rewrite app_nil_r.
    reflexivity.
  - assert (Hlt : (1 < trotter_order)%Z) by lia.
    specialize (Hhigher Hlt).
    destruct (sdiv time (of_int 1)) as [step_angle|] eqn:Hstep;
      [|contradiction].
    eexists. eexists. eexists.
    split; [exact (time_evolution_nonempty _ _ _ _ Hne Hpos Hangle)|].
    rewrite gate_layout_concat_repeat.
    split;
      [exact (time_evolution_derivatives_higher_order _ _ _ _ _
                Hlt Hne Hangle Hstep Hdefined)|].
    apply Forall_forall. intros circuit Hin.
    unfold spliced_derivative_circuits in Hin. apply in_flat_map in Hin.
    destruct Hin as [position [Hposition Hin]].
    apply in_range in Hposition. apply in_map_iff in Hin.
    destruct Hin as [different_circuit [<- Hin]].
    apply in_step_derivative_circuits in Hin.
    destruct Hin as [i [shifted ->]].
    rewrite spliced_closed_form by exact Hposition.
    unfold gate_layout at 1. rewrite !map_app.
    fold (gate_layout (perturbed_step hamiltonian i shifted angle)).
    fold (gate_layout (concat (repeat (one_step_circuit hamiltonian step_angle)
                                      (Z.to_nat position)))).
    fold (gate_layout (concat (repeat (one_step_circuit hamiltonian step_angle)
                                      (Z.to_nat (trotter_order - position - 1))))).
    rewrite !gate_layout_concat_repeat.
    rewrite (gate_layout_perturbed_step _ _ _ _ angle),
      (gate_layout_one_step _ step_angle angle).
    unfold Circuit. rewrite concat_repeat_split. do 2 f_equal. lia.
Qed.

End Evolution.

(** ** Concrete runs *)

Lemma time_evolution_for_term_emission_order_witness :
  [(0, AxisZ); (1, AxisX)] <> []
  /\ time_evolution_for_term
       (single_term [(0, AxisZ); (1, AxisX)] (Num (3 # 2))) (Num (1 # 2))
     = Ok [H 1; CNOT 0 1; RZ (Num (3 # 2)) 1; CNOT 0 1; H 1].
Proof.
  split; [discriminate|].
  exact (proj1 (time_evolution_for_term_emission_order
                  [(0, AxisZ); (1, AxisX)] (Num (3 # 2)) (Num (1 # 2))
                  ltac:(discriminate))).
Defined.

Lemma time_evolution_trotter_concatenation_witness :
  let hamiltonian :=
    mkQubitOperator [([(0, AxisZ)], Num (1 # 2)); ([(1, AxisX)], Num 2)] in
  terms hamiltonian <> []
  /\ (0 < 2)%Z
  /\ sdiv (Num 1) (of_int 2) = Some (Num (1 # 2))
  /\ exists c1 c2 : Circuit,
       time_evolution_for_term (single_term [(0, AxisZ)] (Num (1 # 2)))
         (Num (1 # 2)) = Ok c1
       /\ time_evolution_for_term (single_term [(1, AxisX)] (Num 2))
            (Num (1 # 2)) = Ok c2
       /\ time_evolution hamiltonian (Num 1) "Trotter" 2
          = Ok (c1 ++ c2 ++ c1 ++ c2).
Proof.
  intros hamiltonian.
  assert (Hne : terms hamiltonian <> []) by discriminate.
  assert (Hpos : (0 < 2)%Z) by lia.
  assert (Hdiv : sdiv (Num 1) (of_int 2) = Some (Num (1 # 2)))
    by reflexivity.
  refine (conj Hne (conj Hpos (conj Hdiv _))).
  exact (proj2 (time_evolution_trotter_concatenation hamiltonian (Num 1)
                  (Num (1 # 2)) 2 Hne Hpos Hdiv)
           ([(0, AxisZ)], Num (1 # 2)) ([(1, AxisX)], Num 2)
           eq_refl eq_refl).
Defined.

Lemma perturbed_step_construction_witness :
  let hamiltonian :=
    mkQubitOperator [([(0, AxisZ)], Num (1 # 2)); ([(1, AxisX)], Num 2)] in
  sdiv (Num 1) (of_int 2) = Some (Num (1 # 2))
  /\ (forall entry, In entry (terms hamiltonian) ->
                    shift_angles (Num 1) 2 (snd entry) <> None)
  /\ exists (perturbed : list Circuit) (recorded : list pynum),
       single_trotter_loop (fun _ => "") (get_operators hamiltonian) (Num 1) 2
       = Ok (perturbed, recorded)
       /\ ((2 <= 1)%Z ->
           time_evolution_derivatives (fun _ => "") hamiltonian (Num 1)
             "Trotter" 2
           = Ok (perturbed, recorded))
       /\ (forall step_angle : pynum,
             (1 < 2)%Z ->
             terms hamiltonian <> [] ->
             sdiv (Num 1) (of_int 1) = Some step_angle ->
             time_evolution_derivatives (fun _ => "") hamiltonian (Num 1)
               "Trotter" 2
             = Ok (spliced_derivative_circuits
                     (one_step_circuit hamiltonian step_angle) perturbed 2,
                   concat (repeat recorded (Z.to_nat 2))))
       /\ length perturbed = 2 * length (terms hamiltonian)
       /\ forall (i : nat) (key : pauli_key) (c_i : pynum),
            nth_error (terms hamiltonian) i = Some (key, c_i) ->
            exists r_i quotient plus minus : pynum,
              sdiv c_i (of_int 2) = Some r_i
              /\ sdiv pi (smul (of_float 4) r_i) = Some quotient
              /\ sdiv (sadd (Num 1) (smul (of_float 1) quotient)) (of_int 2)
                 = Some plus
              /\ sdiv (sadd (Num 1) (smul (of_float (-1)) quotient)) (of_int 2)
                 = Some minus
              /\ nth_error perturbed (2 * i)
                 = Some (flat_map
                           (fun indexed =>
                              term_circuit (fst (snd indexed))
                                (snd (snd indexed))
                                (if fst indexed =? i then plus
                                 else Num (1 # 2)))
                           (enumerate (terms hamiltonian)))
              /\ nth_error perturbed (2 * i + 1)
                 = Some (flat_map
                           (fun indexed =>
                              term_circuit (fst (snd indexed))
                                (snd (snd indexed))
                                (if fst indexed =? i then minus
                                 else Num (1 # 2)))
                           (enumerate (terms hamiltonian)))
              /\ nth_error recorded (2 * i) = Some (smul r_i (of_float 1))
              /\ nth_error recorded (2 * i + 1)
                 = Some (smul r_i (of_float (-1))).
Proof.
  intros hamiltonian.
  assert (Hangle : sdiv (Num 1) (of_int 2) = Some (Num (1 # 2)))
    by reflexivity.
  assert (Hdefined : forall entry, In entry (terms hamiltonian) ->
                       shift_angles (Num 1) 2 (snd entry) <> None)
    by (intros entry [<-|[<-|[]]]; discriminate).
  exact (conj Hangle (conj Hdefined
           (perturbed_step_construction (fun _ => "") hamiltonian (Num 1)
              (Num (1 # 2)) 2 Hangle Hdefined))).
Defined.

(** The run behind the witness: the four perturbed one-step circuits and
    the four factors, term by term, sign +1 before sign -1. *)
Example perturbed_steps_of_two_terms :
  single_trotter_loop (fun _ => "")
    (get_operators
       (mkQubitOperator [([(0, AxisZ)], Num (1 # 2)); ([(1, AxisX)], Num 2)]))
    (Num 1) 2
  = Ok ([[RZ (Num (Qred ((1 + float_pi) / 2))) 0; H 1; RZ (Num 2) 1; H 1];
         [RZ (Num (Qred ((1 - float_pi) / 2))) 0; H 1; RZ (Num 2) 1; H 1];
         [RZ (Num (1 # 2)) 0; H 1;
          RZ (Num (Qred (4 * ((1 + float_pi / 4) / 2)))) 1; H 1];
         [RZ (Num (1 # 2)) 0; H 1;
          RZ (Num (Qred (4 * ((1 - float_pi / 4) / 2)))) 1; H 1]],
        [Num (1 # 4); Num (-1 # 4); Num 1; Num (-1)]).
Proof. reflexivity. Qed.

(** C3 as stated fails for a term with a numeric coefficient equal to
    zero: for the second term of [0.5 * Z0 + 0.0 * X1] at
    [trotter_order = 2] the per-repetition coefficient is zero, the shift
    [pi / (4.0 * 0.0)] raises [ZeroDivisionError], and the loops build no
    perturbed circuit at all. *)
Lemma perturbed_step_undefined_shift :
  let hamiltonian :=
    mkQubitOperator [([(0, AxisZ)], Num (1 # 2)); ([(1, AxisX)], Num 0)] in
  nth_error (terms hamiltonian) 1 = Some ([(1, AxisX)], Num 0)
  /\ complex_real (Num 0) = Some (Num 0)
  /\ sdiv (Num 0) (of_int 2) = Some (Num 0)
  /\ sdiv pi (smul (of_float 4) (Num 0)) = None
  /\ single_trotter_loop (fun _ => "") (get_operators hamiltonian) (Num 1) 2
     = Raise ZeroDivisionError
  /\ time_evolution_derivatives (fun _ => "") hamiltonian (Num 1) "Trotter" 2
     = Raise ZeroDivisionError
  /\ ~ (exists (perturbed : list Circuit) (recorded : list pynum),
          single_trotter_loop (fun _ => "") (get_operators hamiltonian)
            (Num 1) 2
          = Ok (perturbed, recorded)).
Proof.
  intros hamiltonian. repeat (split; [reflexivity|]).
  intros [perturbed [recorded Hrun]]. discriminate Hrun.
Qed.

Lemma unsupported_method_rejected_witness :
  "Suzuki" <> "Trotter"
  /\ time_evolution (single_term [(0, AxisZ)] (Num 1)) (Num 1) "Suzuki" 1
     = Raise (ValueError "Currently the method Suzuki is not supported.")
  /\ time_evolution_derivatives (fun _ => "")
       (single_term [(0, AxisZ)] (Num 1)) (Num 1) "Suzuki" 1
     = Raise (ValueError "The method Suzuki is currently not supported.").
Proof.
  assert (Hmethod : "Suzuki" <> "Trotter") by discriminate.
  exact (conj Hmethod
           (unsupported_method_rejected (fun _ => "")
              (single_term [(0, AxisZ)] (Num 1)) (Num 1) "Suzuki" 1 Hmethod)).
Defined.

Lemma generate_circuit_sequence_negative_position_witness :
  (-1 < 0)%Z
  /\ (0 <= 2)%Z
  /\ _generate_circuit_sequence [H (S := pynum) 0] [H 1] 2 (-1)
     = Ok [H 0; H 0].
Proof.
  assert (Hneg : (-1 < 0)%Z) by lia.
  assert (Hlen : (0 <= 2)%Z) by lia.
  exact (conj Hneg (conj Hlen
           (proj1 (generate_circuit_sequence_negative_position
                     [H (S := pynum) 0] [H 1] 2 (-1) Hneg Hlen)))).
Defined.

Lemma derivatives_count_and_factors_witness :
  let hamiltonian :=
    mkQubitOperator [([(0, AxisZ)], Num (1 # 2)); ([(1, AxisX)], Num 2)] in
  (1 <= 2)%Z
  /\ ((1 < 2)%Z -> terms hamiltonian <> [] /\ sdiv (Num 1) (of_int 1) <> None)
  /\ sdiv (Num 1) (of_int 2) = Some (Num (1 # 2))
  /\ (forall entry, In entry (terms hamiltonian) ->
                    shift_angles (Num 1) 2 (snd entry) <> None)
  /\ exists (circuits : list Circuit) (returned per_repetition : list pynum),
       time_evolution_derivatives (fun _ => "") hamiltonian (Num 1) "Trotter" 2
       = Ok (circuits, returned)
       /\ Z.of_nat (length circuits) = 8%Z
       /\ Z.of_nat (length returned) = 8%Z
       /\ Forall2 (fun entry r_i => sdiv (snd entry) (of_int 2) = Some r_i)
                  (terms hamiltonian) per_repetition
       /\ returned
          = concat (repeat
                      (flat_map (fun r_i => [smul r_i (of_float 1);
                                             smul r_i (of_float (-1))])
                                per_repetition)
                      2)
       /\ (2%Z = 1%Z ->
           circuits = step_derivative_circuits hamiltonian (Num 1) 1
                        (Num (1 # 2))).
Proof.
  intros hamiltonian.
  assert (Hr : (1 <= 2)%Z) by lia.
  assert (Hhigher : (1 < 2)%Z ->
                    terms hamiltonian <> []
                    /\ sdiv (Num 1) (of_int 1) <> None)
    by (intros _; split; discriminate).
  assert (Hangle : sdiv (Num 1) (of_int 2) = Some (Num (1 # 2)))
    by reflexivity.
  assert (Hdefined : forall entry, In entry (terms hamiltonian) ->
                       shift_angles (Num 1) 2 (snd entry) <> None)
    by (intros entry [<-|[<-|[]]]; discriminate).
  refine (conj Hr (conj Hhigher (conj Hangle (conj Hdefined _)))).
  exact (proj1 (derivatives_count_and_factors (fun _ => "") hamiltonian
                  (Num 1) (Num (1 # 2)) 2 Hr Hhigher Hangle Hdefined)).
Defined.

(** C4 as stated fails on a numeric coefficient equal to zero: for
    [0.0 * Z0] the per-repetition coefficient is zero, the shift
    [pi / (4.0 * 0.0)] raises [ZeroDivisionError], and no circuit and no
    factor is returned. *)
Lemma derivatives_zero_coefficient_raises :
  complex_real (Num 0) = Some (Num 0)
  /\ time_evolution_derivatives (fun _ => "")
       (single_term [(0, AxisZ)] (Num 0)) (Num 1) "Trotter" 1
     = Raise ZeroDivisionError
  /\ ~ (exists (circuits : list Circuit) (returned : list pynum),
          time_evolution_derivatives (fun _ => "")
            (single_term [(0, AxisZ)] (Num 0)) (Num 1) "Trotter" 1
          = Ok (circuits, returned)
          /\ length circuits = 2 /\ length returned = 2).
Proof.
  split; [reflexivity|]. split; [reflexivity|].
  intros [circuits [returned [Hrun _]]]. discriminate Hrun.
Qed.

(** C9: a [QubitOperator] Hamiltonian whose coefficient is a symbol (one
    that [complex] rejects) is not refused by
    [time_evolution_derivatives]: the division [x / 1] succeeds, the
    [TypeError] handler is not entered, and two circuits and two factors
    with symbolic entries are returned. *)
Theorem symbolic_coefficient_not_rejected :
  complex_real (Symbol "x") = None
  /\ time_evolution_derivatives (fun _ => "")
       (single_term [(0, AxisZ)] (Symbol "x")) (Num 1) "Trotter" 1
     = Ok ([[RZ (SymMul
                   (SymMul (Num 2)
                      (SymDiv
                         (SymAdd (Num 1)
                            (SymMul (Num 1)
                               (SymDiv (Num float_pi)
                                  (SymMul (Num 4)
                                     (SymDiv (Symbol "x") (Num 1))))))
                         (Num 1)))
                   (Symbol "x")) 0];
            [RZ (SymMul
                   (SymMul (Num 2)
                      (SymDiv
                         (SymAdd (Num 1)
                            (SymMul (Num (-1))
                               (SymDiv (Num float_pi)
                                  (SymMul (Num 4)
                                     (SymDiv (Symbol "x") (Num 1))))))
                         (Num 1)))
                   (Symbol "x")) 0]],
           [SymMul (SymDiv (Symbol "x") (Num 1)) (Num 1);
            SymMul (SymDiv (Symbol "x") (Num 1)) (Num (-1))]).
Proof. split; reflexivity. Qed.

(** The single-qubit cases and the identity term. *)
Example identity_term_gives_empty_circuit :
  time_evolution_for_term (single_term [] (Num (3 # 2))) (Num (1 # 2)) = Ok [].
Proof. reflexivity. Qed.

Example single_Z_term :
  time_evolution_for_term (single_term [(2, AxisZ)] (Num (3 # 2))) (Num (1 # 2))
  = Ok [RZ (Num (3 # 2)) 2].
Proof. reflexivity. Qed.

Example single_X_term :
  time_evolution_for_term (single_term [(2, AxisX)] (Num (3 # 2))) (Num (1 # 2))
  = Ok [H 2; RZ (Num (3 # 2)) 2; H 2].
Proof. reflexivity. Qed.

Example single_Y_term :
  time_evolution_for_term (single_term [(2, AxisY)] (Num (3 # 2))) (Num (1 # 2))
  = Ok [RX pi_over_2 2; RZ (Num (3 # 2)) 2; RX neg_pi_over_2 2].
Proof. reflexivity. Qed.

Example three_qubit_term :
  time_evolution_for_term
    (single_term [(0, AxisX); (2, AxisY); (5, AxisZ)] (Symbol "c")) (Symbol "t")
  = Ok [H 0; RX pi_over_2 2;
        CNOT 0 2; CNOT 2 5;
        RZ (SymMul (SymMul (Num 2) (Symbol "t")) (Symbol "c")) 5;
        CNOT 2 5; CNOT 0 2;
        H 0; RX neg_pi_over_2 2].
Proof. reflexivity. Qed.

Example empty_hamiltonian_higher_order_derivatives :
  time_evolution_derivatives (fun _ => "") (mkQubitOperator []) (Num 1)
    "Trotter" 2
  = Raise TypeError.
Proof. reflexivity. Qed.

(** ** Concrete runs of the further properties *)

Lemma time_evolution_identity_terms_witness :
  let hamiltonian := mkQubitOperator [([], Num (3 # 2)); ([], Num 2)] in
  terms hamiltonian <> []
  /\ Forall (fun entry : pauli_key * pynum => fst entry = [])
            (terms hamiltonian)
  /\ (0 < 2)%Z
  /\ sdiv (Num 1) (of_int 2) = Some (Num (1 # 2))
  /\ time_evolution hamiltonian (Num 1) "Trotter" 2 = Ok [].
Proof.
  intros hamiltonian.
  assert (Hne : terms hamiltonian <> []) by discriminate.
  assert (Hidentity : Forall (fun entry : pauli_key * pynum => fst entry = [])
                             (terms hamiltonian))
    by (repeat constructor).
  assert (Hr : (0 < 2)%Z) by lia.
  assert (Hdiv : sdiv (Num 1) (of_int 2) = Some (Num (1 # 2)))
    by reflexivity.
  exact (conj Hne (conj Hidentity (conj Hr (conj Hdiv
           (time_evolution_identity_terms hamiltonian (Num 1) (Num (1 # 2)) 2
              Hne Hidentity Hr Hdiv))))).
Defined.

Lemma time_evolution_concatenates_hamiltonians_witness :
  let first := mkQubitOperator [([(0, AxisZ)], Num (1 # 2))] in
  let second := mkQubitOperator [([(1, AxisX)], Num 2)] in
  terms first <> []
  /\ terms second <> []
  /\ sdiv (Num 1) (of_int 1) = Some (Num 1)
  /\ exists circuit1 circuit2 : Circuit,
       time_evolution first (Num 1) "Trotter" 1 = Ok circuit1
       /\ time_evolution second (Num 1) "Trotter" 1 = Ok circuit2
       /\ time_evolution (mkQubitOperator (terms first ++ terms second))
            (Num 1) "Trotter" 1
          = Ok (circuit1 ++ circuit2).
Proof.
  intros first second.
  assert (Hfirst : terms first <> []) by discriminate.
  assert (Hsecond : terms second <> []) by discriminate.
  assert (Hdiv : sdiv (Num 1) (of_int 1) = Some (Num 1)) by reflexivity.
  exact (conj Hfirst (conj Hsecond (conj Hdiv
           (time_evolution_concatenates_hamiltonians first second (Num 1)
              (Num 1) Hfirst Hsecond Hdiv)))).
Defined.

Lemma time_evolution_gate_count_witness :
  let hamiltonian :=
    mkQubitOperator [([(0, AxisX); (2, AxisY); (5, AxisZ)], Num (1 # 2));
                     ([], Num 3); ([(1, AxisX)], Num 2)] in
  terms hamiltonian <> []
  /\ (0 < 2)%Z
  /\ sdiv (Num 1) (of_int 2) = Some (Num (1 # 2))
  /\ exists circuit : Circuit,
       time_evolution hamiltonian (Num 1) "Trotter" 2 = Ok circuit
       /\ length circuit = 2 * (9 + 0 + 3).
Proof.
  intros hamiltonian.
  assert (Hne : terms hamiltonian <> []) by discriminate.
  assert (Hr : (0 < 2)%Z) by lia.
  assert (Hdiv : sdiv (Num 1) (of_int 2) = Some (Num (1 # 2)))
    by reflexivity.
  exact (conj Hne (conj Hr (conj Hdiv
           (time_evolution_gate_count hamiltonian (Num 1) (Num (1 # 2)) 2
              Hne Hr Hdiv)))).
Defined.

Lemma generate_circuit_sequence_length_witness :
  (0 <= 1 < 3)%Z
  /\ exists circuit : Circuit,
       _generate_circuit_sequence [H (S := pynum) 0; CNOT 0 1] [H 1] 3 1
       = Ok circuit
       /\ Z.of_nat (length circuit) = ((3 - 1) * 2 + 1)%Z.
Proof.
  assert (Hrange : (0 <= 1 < 3)%Z) by lia.
  exact (conj Hrange
           (generate_circuit_sequence_length
              [H (S := pynum) 0; CNOT 0 1] [H 1] 3 1 Hrange)).
Defined.

Lemma generate_circuit_sequence_same_circuit_witness :
  (-4 < 2)%Z
  /\ _generate_circuit_sequence [H (S := pynum) 0; CNOT 0 1]
       [H 0; CNOT 0 1] 2 (-4)
     = Ok [H 0; CNOT 0 1; H 0; CNOT 0 1].
Proof.
  assert (Hlt : (-4 < 2)%Z) by lia.
  exact (conj Hlt
           (generate_circuit_sequence_same_circuit
              [H (S := pynum) 0; CNOT 0 1] 2 (-4) Hlt)).
Defined.

Lemma time_evolution_derivatives_aligned_witness :
  let hamiltonian := single_term [(0, AxisZ)] (Num (3 # 2)) in
  let circuits :=
    [[RZ (Num (2573129579267491 # 562949953421312)) 0];
     [RZ (Num (804570141260381 # 562949953421312)) 0]] in
  let returned := [Num (3 # 2); Num (-3 # 2)] in
  time_evolution_derivatives (fun _ => "") hamiltonian (Num 1) "Trotter" 1
  = Ok (circuits, returned)
  /\ length circuits = length returned
  /\ Z.of_nat (length circuits)
     = (2 * Z.of_nat (length (terms hamiltonian)) * Z.max 1 1)%Z.
Proof.
  intros hamiltonian circuits returned.
  assert (Hrun : time_evolution_derivatives (fun _ => "") hamiltonian (Num 1)
                   "Trotter" 1 = Ok (circuits, returned)) by reflexivity.
  exact (conj Hrun
           (time_evolution_derivatives_aligned (fun _ => "") hamiltonian
              (Num 1) "Trotter" 1 circuits returned Hrun)).
Defined.

Lemma time_evolution_derivatives_zero_division_witness :
  let hamiltonian :=
    mkQubitOperator [([(0, AxisZ)], Num (1 # 2)); ([(1, AxisX)], Num 0)] in
  let pre := [([(0, AxisZ)], Num (1 # 2))] in
  terms hamiltonian = pre ++ ([(1, AxisX)], Num 0) :: []
  /\ (forall entry, In entry pre ->
                    shift_angles (Num 1) 1 (snd entry) <> None)
  /\ sdiv (Num 1) (of_int 1) = Some (Num 1)
  /\ sdiv (Num 0) (of_int 1) = Some (Num 0)
  /\ sdiv pi (smul (of_float 4) (Num 0)) = None
  /\ time_evolution_derivatives (fun _ => "") hamiltonian (Num 1) "Trotter" 1
     = Raise ZeroDivisionError.
Proof.
  intros hamiltonian pre.
  assert (Hterms : terms hamiltonian = pre ++ ([(1, AxisX)], Num 0) :: [])
    by reflexivity.
  assert (Hdefined : forall entry, In entry pre ->
                       shift_angles (Num 1) 1 (snd entry) <> None)
    by (intros entry [<-|[]]; discriminate).
  assert (Hangle : sdiv (Num 1) (of_int 1) = Some (Num 1)) by reflexivity.
  assert (Hr : sdiv (Num 0) (of_int 1) = Some (Num 0)) by reflexivity.
  assert (Hquotient : sdiv pi (smul (of_float 4) (Num 0)) = None)
    by reflexivity.
  exact (conj Hterms (conj Hdefined (conj Hangle (conj Hr (conj Hquotient
           (time_evolution_derivatives_zero_division (fun _ => "")
              hamiltonian (Num 1) (Num 1) 1 pre [] [(1, AxisX)] (Num 0)
              (Num 0) Hterms Hdefined Hangle Hr Hquotient)))))).
Defined.

Lemma time_evolution_derivatives_slots_witness :
  let hamiltonian :=
    mkQubitOperator [([(0, AxisZ)], Num (1 # 2)); ([(1, AxisX)], Num 2)] in
  (1 < 2)%Z
  /\ terms hamiltonian <> []
  /\ sdiv (Num 1) (of_int 2) = Some (Num (1 # 2))
  /\ sdiv (Num 1) (of_int 1) = Some (Num 1)
  /\ (forall entry, In entry (terms hamiltonian) ->
                    shift_angles (Num 1) 2 (snd entry) <> None)
  /\ exists repeated_circuit : Circuit,
       time_evolution hamiltonian (Num 1) "Trotter" 1 = Ok repeated_circuit
       /\ time_evolution_derivatives (fun _ => "") hamiltonian (Num 1)
            "Trotter" 2
          = Ok (flat_map
                  (fun slot =>
                     map (fun different_circuit =>
                            concat (repeat repeated_circuit slot)
                              ++ different_circuit
                              ++ concat (repeat repeated_circuit
                                           (Z.to_nat 2 - slot - 1)))
                         (step_derivative_circuits hamiltonian (Num 1) 2
                            (Num (1 # 2))))
                  (seq 0 (Z.to_nat 2)),
                concat (repeat (step_factors hamiltonian 2) (Z.to_nat 2))).
Proof.
  intros hamiltonian.
  assert (Hr : (1 < 2)%Z) by lia.
  assert (Hne : terms hamiltonian <> []) by discriminate.
  assert (Hangle : sdiv (Num 1) (of_int 2) = Some (Num (1 # 2)))
    by reflexivity.
  assert (Hstep : sdiv (Num 1) (of_int 1) = Some (Num 1)) by reflexivity.
  assert (Hdefined : forall entry, In entry (terms hamiltonian) ->
                       shift_angles (Num 1) 2 (snd entry) <> None)
    by (intros entry [<-|[<-|[]]]; discriminate).
  exact (conj Hr (conj Hne (conj Hangle (conj Hstep (conj Hdefined
           (time_evolution_derivatives_slots (fun _ => "") hamiltonian
              (Num 1) (Num (1 # 2)) (Num 1) 2
              Hr Hne Hangle Hstep Hdefined)))))).
Defined.

Lemma derivative_circuits_share_layout_witness :
  let hamiltonian :=
    mkQubitOperator [([(0, AxisZ)], Num (1 # 2)); ([(1, AxisX)], Num 2)] in
  (1 <= 2)%Z
  /\ terms hamiltonian <> []
  /\ sdiv (Num 1) (of_int 2) = Some (Num (1 # 2))
  /\ ((1 < 2)%Z -> sdiv (Num 1) (of_int 1) <> None)
  /\ (forall entry, In entry (terms hamiltonian) ->
                    shift_angles (Num 1) 2 (snd entry) <> None)
  /\ exists (evolution : Circuit) (circuits : list Circuit)
            (returned : list pynum),
       time_evolution hamiltonian (Num 1) "Trotter" 2 = Ok evolution
       /\ time_evolution_derivatives (fun _ => "") hamiltonian (Num 1)
            "Trotter" 2
          = Ok (circuits, returned)
       /\ Forall (fun circuit => gate_layout circuit = gate_layout evolution)
                 circuits.
Proof.
  intros hamiltonian.
  assert (Hr : (1 <= 2)%Z) by lia.
  assert (Hne : terms hamiltonian <> []) by discriminate.
  assert (Hangle : sdiv (Num 1) (of_int 2) = Some (Num (1 # 2)))
    by reflexivity.
  assert (Hhigher : (1 < 2)%Z -> sdiv (Num 1) (of_int 1) <> None)
    by (intros _; discriminate).
  assert (Hdefined : forall entry, In entry (terms hamiltonian) ->
                       shift_angles (Num 1) 2 (snd entry) <> None)
    by (intros entry [<-|[<-|[]]]; discriminate).
  exact (conj Hr (conj Hne (conj Hangle (conj Hhigher (conj Hdefined
           (derivative_circuits_share_layout (fun _ => "") hamiltonian
              (Num 1) (Num (1 # 2)) 2
              Hr Hne Hangle Hhigher Hdefined)))))).
Defined.
